(** * A token-bucket rate limiter: [Rate], [Bucket], [RateLimiter]

    Shallow embedding of [ratelimiter.py].  Python integers are [Z];
    Python floats are IEEE-754 binary64 values, taken from the Standard
    Library's executable specification [SpecFloat] ([spec_float] with
    [prec = 53] and [emax = 1024]).  The source divides with [/] and then
    calls [int]: [a / b] on two ints is the float nearest to the exact
    quotient, and [int] truncates it toward zero, so the quotient is the
    integer quotient only as long as no rounding gets in the way; the
    lemmas on rounding below say when.  A method that mutates [self] is a
    computation in a state monad whose state survives a raised exception,
    as the attributes of a Python object do.  A call of
    [time.monotonic_ns()] is an explicit argument [now] of the operation
    that makes it. *)

From Stdlib Require Import ZArith Lia List Bool.
From Stdlib Require Import Floats.SpecFloat.
From Stdlib Require Import String DecimalString.
Import ListNotations.

Local Open Scope Z_scope.

(** ** Exceptions and results *)

Inductive exn : Type :=
| ValueError
| ZeroDivisionError
| OverflowError.

Inductive result (A : Type) : Type :=
| Ok (a : A)
| Raise (e : exn).

Arguments Ok {A} a.
Arguments Raise {A} e.

Definition rbind {A B : Type} (r : result A) (k : A -> result B) : result B :=
  match r with
  | Ok a => k a
  | Raise e => Raise e
  end.

Declare Scope result_scope.
Delimit Scope result_scope with result.
Notation "x <- c ;; k" := (rbind c (fun x => k))
  (at level 61, c at next level, right associativity) : result_scope.

(** ** Python numbers *)

Module Py.

(** binary64 *)
Definition prec : Z := 53.
Definition emax : Z := 1024.

(** The integer [z] as a float operand carrying its exact value: the
    mantissa is not normalised, so no rounding has happened yet. *)
Definition exact (z : Z) : spec_float :=
  match z with
  | Z0 => S754_zero false
  | Zpos p => S754_finite false p 0
  | Zneg p => S754_finite true p 0
  end.

(** A conversion or an [int] division whose rounded result exceeds the
    largest binary64 raises instead of returning an infinity. *)
Definition check_overflow (x : spec_float) : result spec_float :=
  match x with
  | S754_infinity _ => Raise OverflowError
  | _ => Ok x
  end.

(** [float(z)]: the nearest binary64, ties to even. *)
Definition float_of_int (z : Z) : result spec_float :=
  check_overflow (binary_normalize prec emax z 0 false).

(** [a / b] on two [int]s: the quotient of the exact operands, rounded
    once to binary64 (ties to even). *)
Definition int_truediv (a b : Z) : result spec_float :=
  if b =? 0 then Raise ZeroDivisionError
  else check_overflow (SFdiv prec emax (exact a) (exact b)).

Definition is_zero (x : spec_float) : bool :=
  match x with
  | S754_zero _ => true
  | _ => false
  end.

(** [x / y] on two [float]s: only a zero divisor raises. *)
Definition float_truediv (x y : spec_float) : result spec_float :=
  if is_zero y then Raise ZeroDivisionError
  else Ok (SFdiv prec emax x y).

Definition float_mul (x y : spec_float) : spec_float :=
  SFmul prec emax x y.

(** [int(x)] on a [float]: truncation toward zero. *)
Definition int_of_float (x : spec_float) : result Z :=
  match x with
  | S754_nan => Raise ValueError
  | S754_infinity _ => Raise OverflowError
  | S754_zero _ => Ok 0
  | S754_finite s m e =>
      Ok (cond_Zopp s (if 0 <=? e then Zpos m * 2 ^ e
                       else Zpos m / 2 ^ (- e)))
  end.

(** A value passed where the source says [float]: callers pass either
    an [int] ([RateLimiter(2)]) or a [float] ([RateLimiter(0.5)]). *)
Inductive number : Type :=
| Int (z : Z)
| Float (x : spec_float).

(** [k / n] for an int [k]: an int divisor gives the int division, a
    float divisor converts [k] first. *)
Definition int_over (k : Z) (n : number) : result spec_float :=
  match n with
  | Int z => int_truediv k z
  | Float x => xk <- float_of_int k ;; float_truediv xk x
  end%result.

(** [x * k] for a float [x] and an int [k] *)
Definition float_mul_int (x : spec_float) (k : Z) : result spec_float :=
  (y <- float_of_int k ;; Ok (float_mul x y))%result.

(** [int(a / b)] on two [int]s *)
Definition int_of_truediv (a b : Z) : result Z :=
  (q <- int_truediv a b ;; int_of_float q)%result.

(** [str(z)] on an [int]: its decimal digits, with a minus sign when
    negative. *)
Definition str_of_int (z : Z) : string :=
  NilZero.string_of_int (Z.to_int z).

(** *** Vocabulary on numbers *)

(** [round(x)] on a [float]: the nearest integer, ties to even. *)
Definition round (x : spec_float) : result Z :=
  match x with
  | S754_nan => Raise ValueError
  | S754_infinity _ => Raise OverflowError
  | S754_zero _ => Ok 0
  | S754_finite s m e =>
      Ok (cond_Zopp s
            (if 0 <=? e then Zpos m * 2 ^ e
             else let d := 2 ^ (- e) in
                  let q := Zpos m / d in
                  match 2 * (Zpos m mod d) ?= d with
                  | Lt => q
                  | Gt => q + 1
                  | Eq => if Z.even q then q else q + 1
                  end))
  end.


Definition is_null (n : number) : bool :=
  match n with
  | Int z => z =? 0
  | Float x => SFeqb x (S754_zero false)
  end.

Definition is_positive (n : number) : bool :=
  match n with
  | Int z => 0 <? z
  | Float x => SFltb (S754_zero false) x
  end.

(** The sign bit of a float that is not a NaN. *)
Definition has_sign (s : bool) (x : spec_float) : Prop :=
  match x with
  | S754_zero s' | S754_infinity s' | S754_finite s' _ _ => s' = s
  | S754_nan => False
  end.

(** Float literals used below: [1.0], [-1.0], [1.5], [2.0], [2e9]. *)
Definition f_1_0 : spec_float := S754_finite false 4503599627370496 (-52).
Definition f_neg_1_0 : spec_float := S754_finite true 4503599627370496 (-52).
Definition f_1_5 : spec_float := S754_finite false 6755399441055744 (-52).
Definition f_2_0 : spec_float := S754_finite false 4503599627370496 (-51).
Definition f_2e9 : spec_float := S754_finite false 8388608000000000 (-22).

End Py.

(** ** Methods that mutate [self]

    A computation takes the object's attributes and returns its outcome
    with the attributes as they are when it returns or raises. *)

Definition M (S A : Type) : Type := S -> result A * S.

Definition ret {S A : Type} (a : A) : M S A := fun s => (Ok a, s).

Definition raise {S A : Type} (e : exn) : M S A := fun s => (Raise e, s).

Definition bind {S A B : Type} (m : M S A) (k : A -> M S B) : M S B :=
  fun s => match m s with
           | (Ok a, s') => k a s'
           | (Raise e, s') => (Raise e, s')
           end.

Definition get {S : Type} : M S S := fun s => (Ok s, s).

Definition put {S : Type} (s' : S) : M S unit := fun _ => (Ok tt, s').

Definition lift {S A : Type} (r : result A) : M S A := fun s => (r, s).

Declare Scope method_scope.
Delimit Scope method_scope with method.
Notation "x <- c ;; k" := (bind c (fun x => k))
  (at level 61, c at next level, right associativity) : method_scope.
Notation "c ;; k" := (bind c (fun _ => k))
  (at level 61, right associativity) : method_scope.

(** ** The program *)

Definition _SECOND_AS_NS : Z := 1000000000.

Module Rate.

(** [amount] is an [InitVar], not a field: a [Rate] has one field, and
    the generated [__eq__] compares it. *)
Record t : Type := { period_ns : Z }.

Definition __post_init__ (self : t) (amount : Z) : result t :=
  if amount <? 1 then Raise ValueError
  else (p <- Py.int_of_truediv (period_ns self) amount ;;
        Ok {| period_ns := p |})%result.

(** [Rate(amount, period_ns)]: the generated [__init__] stores the
    field, then runs [__post_init__]. *)
Definition __init__ (amount period_ns : Z) : result t :=
  __post_init__ {| period_ns := period_ns |} amount.

Definition eqb (r1 r2 : t) : bool := period_ns r1 =? period_ns r2.

Definition from_frequency (frequency_per_sec : Py.number) : result t :=
  (period_sec <- Py.int_over 1 frequency_per_sec ;;
   scaled <- Py.float_mul_int period_sec _SECOND_AS_NS ;;
   period_ns <- Py.int_of_float scaled ;;
   __init__ 1 period_ns)%result.

(** [period_sec]: a cached property of a frozen object, so every access
    gives what the first one computed. *)
Definition period_sec (self : t) : result spec_float :=
  Py.int_truediv (period_ns self) _SECOND_AS_NS.

(** The [__repr__] that [dataclass] generates: the fields only, so not
    the [InitVar]. *)
Definition __repr__ (self : t) : string :=
  ("Rate(period_ns=" ++ Py.str_of_int (period_ns self) ++ ")")%string.

End Rate.

(** [Rate()], evaluated once when the module is loaded. *)
Definition _ONE_PER_SECOND : Rate.t := {| Rate.period_ns := 1000000000 |}.

Module Bucket.

Record t : Type := {
  _volume : Z;
  _refill_rate : Rate.t;
  _current : Z;
  _last_refill_ns : Z
}.

Definition set_current (v : Z) (self : t) : t :=
  {| _volume := _volume self; _refill_rate := _refill_rate self;
     _current := v; _last_refill_ns := _last_refill_ns self |}.

Definition set_last_refill_ns (v : Z) (self : t) : t :=
  {| _volume := _volume self; _refill_rate := _refill_rate self;
     _current := _current self; _last_refill_ns := v |}.

(** [Bucket(volume, refill_rate)], where [now] is the clock reading
    taken by [__init__]. *)
Definition __init__ (volume : Z) (refill_rate : Rate.t) (now : Z) : t :=
  {| _volume := volume; _refill_rate := refill_rate;
     _current := volume; _last_refill_ns := now |}.

Definition is_empty (self : t) : bool := _current self <=? 0.

Definition remove (amount : Z) : M t unit :=
  if amount <? 0 then raise ValueError
  else (self <- get ;;
        put (set_current (_current self - amount) self))%method.

(** [now] is the reading of the one [time.monotonic_ns()] call that
    either branch makes. *)
Definition refill (now : Z) : M t unit :=
  (self <- get ;;
   let refill_needed := _current self <? _volume self in
   if negb refill_needed then put (set_last_refill_ns now self)
   else
     let time_since_last_refill := now - _last_refill_ns self in
     n_tokens <- lift (Py.int_of_truediv time_since_last_refill
                         (Rate.period_ns (_refill_rate self))) ;;
     put (set_current (Z.min (_current self + n_tokens) (_volume self))
            self) ;;
     self <- get ;;
     put (set_last_refill_ns
            (_last_refill_ns self
             + n_tokens * Rate.period_ns (_refill_rate self)) self))%method.

(** [type(self).__name__] is ["Bucket"] for an instance of the class
    itself; an f-string formats the rate with its [__repr__]. *)
Definition __repr__ (self : t) : string :=
  ("Bucket("
   ++ "volume=" ++ Py.str_of_int (_volume self) ++ ", "
   ++ "refill_rate=" ++ Rate.__repr__ (_refill_rate self)
   ++ ")")%string.

Definition __str__ (self : t) : string :=
  ("Bucket("
   ++ "tokens=" ++ Py.str_of_int (_current self) ++ ", "
   ++ "volume=" ++ Py.str_of_int (_volume self) ++ ", "
   ++ "refill_rate=" ++ Rate.__repr__ (_refill_rate self)
   ++ ")")%string.

End Bucket.

Module RateLimiter.

Record t : Type := { _bucket : Bucket.t }.

(** [RateLimiter(rps)]; [now] is the reading taken by [Bucket.__init__],
    which runs only after [Rate.from_frequency] has returned. *)
Definition __init__ (rps : Py.number) (now : Z) : result t :=
  (rate <- Rate.from_frequency rps ;;
   Ok {| _bucket := Bucket.__init__ 1 rate now |})%result.

(** A method of the owned bucket, run on [self._bucket]. *)
Definition on_bucket {A : Type} (m : M Bucket.t A) : M t A :=
  fun self => let (r, b) := m (_bucket self) in (r, {| _bucket := b |}).

Definition allow (now : Z) : M t bool :=
  (on_bucket (Bucket.refill now) ;;
   self <- get ;;
   if Bucket.is_empty (_bucket self) then ret false
   else on_bucket (Bucket.remove 1) ;; ret true)%method.

(** Successive [allow()] calls, one clock reading each; a call that
    raises leaves the limiter as it is at the raise. *)
Fixpoint allows (readings : list Z) (self : t) : list (result bool) * t :=
  match readings with
  | [] => ([], self)
  | now :: rest =>
      let (r, self') := allow now self in
      let (rs, self'') := allows rest self' in
      (r :: rs, self'')
  end.

End RateLimiter.

(** ** Vocabulary of the statements *)

(** The period [from_frequency] hands to the constructor:
    [int((1 / f) * 1_000_000_000)]. *)
Definition truncated_period (f : Py.number) : result Z :=
  (period_sec <- Py.int_over 1 f ;;
   scaled <- Py.float_mul_int period_sec _SECOND_AS_NS ;;
   Py.int_of_float scaled)%result.

(** [from_frequency] as the description that rounds to the nearest
    integer has it: [Rate(1, round(1_000_000_000 / f))]. *)
Definition from_frequency_rounded (f : Py.number) : result Rate.t :=
  (q <- Py.int_over _SECOND_AS_NS f ;;
   p <- Py.round q ;;
   Rate.__init__ 1 p)%result.

(** What [refill] does to one bucket at one clock reading when tokens
    are added by the floor of [elapsed / period_ns]. *)
Definition refill_as_claimed (b : Bucket.t) (now : Z) : Prop :=
  let elapsed := now - Bucket._last_refill_ns b in
  let period := Rate.period_ns (Bucket._refill_rate b) in
  (Bucket._current b < Bucket._volume b -> 0 <= elapsed ->
   Bucket.refill now b =
   (Ok tt,
    {| Bucket._volume := Bucket._volume b;
       Bucket._refill_rate := Bucket._refill_rate b;
       Bucket._current :=
         Z.min (Bucket._current b + elapsed / period) (Bucket._volume b);
       Bucket._last_refill_ns :=
         Bucket._last_refill_ns b + elapsed / period * period |})) /\
  (Bucket._volume b <= Bucket._current b ->
   Bucket.refill now b = (Ok tt, Bucket.set_last_refill_ns now b)).

(** A limiter as [RateLimiter.__init__] builds it (volume 1), with the
    token count and the timestamp it has reached. *)
Definition unit_limiter (period current last : Z) : RateLimiter.t :=
  {| RateLimiter._bucket :=
       {| Bucket._volume := 1;
          Bucket._refill_rate := {| Rate.period_ns := period |};
          Bucket._current := current; Bucket._last_refill_ns := last |} |}.

(** The outcomes of five [allow()] calls, the first at [t1] and each
    next one half a second after the one before, on [RateLimiter(rps)]
    built at [t0]. *)
Definition five_calls_half_a_second_apart (rps : Py.number) (t0 t1 : Z)
  : result (list (result bool)) :=
  (rl <- RateLimiter.__init__ rps t0 ;;
   Ok (fst (RateLimiter.allows
              [t1; t1 + 500000000; t1 + 1000000000; t1 + 1500000000;
               t1 + 2000000000] rl)))%result.

(** The token count of [RateLimiter(rps)], built at [t0], after
    [allow()] calls at the given readings. *)
Definition tokens_after (rps : Py.number) (t0 : Z) (readings : list Z)
  : result Z :=
  (rl <- RateLimiter.__init__ rps t0 ;;
   Ok (Bucket._current
         (RateLimiter._bucket (snd (RateLimiter.allows readings rl)))))%result.

(** A frequency that is not zero, with its sign bit. *)
Definition signed (s : bool) (f : Py.number) : Prop :=
  match f with
  | Py.Int z => z <> 0 /\ s = (z <? 0)
  | Py.Float x => Py.has_sign s x /\ Py.is_zero x = false
  end.

Module Run.

(** The operations a caller can apply to a bucket.  A caller that
    catches an exception goes on with the bucket as the raise left it. *)
Inductive op : Type :=
| Remove (amount : Z)
| Refill (now : Z)
| IsEmpty.

Definition step (o : op) (b : Bucket.t) : Bucket.t :=
  match o with
  | Remove amount => snd (Bucket.remove amount b)
  | Refill now => snd (Bucket.refill now b)
  | IsEmpty => b
  end.

Definition run (ops : list op) (b : Bucket.t) : Bucket.t :=
  fold_left (fun b o => step o b) ops b.

(** A monotonic clock read last at [t]: the readings taken by the
    [Refill]s never go back, and stay below [limit]. *)
Fixpoint clock_ok (t limit : Z) (ops : list op) : Prop :=
  match ops with
  | [] => True
  | Refill now :: rest => t <= now < limit /\ clock_ok now limit rest
  | _ :: rest => clock_ok t limit rest
  end.

(** The same for the readings of successive [allow()] calls. *)
Fixpoint readings_ok (t limit : Z) (readings : list Z) : Prop :=
  match readings with
  | [] => True
  | now :: rest => t <= now < limit /\ readings_ok now limit rest
  end.

(** A monotonic clock read last at [t], with no bound on how long it
    runs: the readings taken by the [Refill]s never go back, and each is
    taken before [limit] or less than [gap] after the reading before
    it. *)
Fixpoint clock_steady (limit gap t : Z) (ops : list op) : Prop :=
  match ops with
  | [] => True
  | Refill now :: rest =>
      t <= now /\ (now < limit \/ now < t + gap) /\
      clock_steady limit gap now rest
  | _ :: rest => clock_steady limit gap t rest
  end.

(** The same for the readings of successive [allow()] calls. *)
Fixpoint readings_steady (limit gap t : Z) (readings : list Z) : Prop :=
  match readings with
  | [] => True
  | now :: rest =>
      t <= now /\ (now < limit \/ now < t + gap) /\
      readings_steady limit gap now rest
  end.

End Run.

(** ** Vocabulary of the further properties *)

(** How many of the calls were accepted. *)
Fixpoint accepted (outcomes : list (result bool)) : Z :=
  match outcomes with
  | [] => 0
  | Ok true :: rest => 1 + accepted rest
  | _ :: rest => accepted rest
  end.

(** The call returned: it raised nothing. *)
Definition returned {A : Type} (r : result A) : bool :=
  match r with Ok _ => true | Raise _ => false end.

(** What the [remove] calls among the operations take out. *)
Fixpoint taken (ops : list Run.op) : Z :=
  match ops with
  | [] => 0
  | Run.Remove amount :: rest =>
      (if amount <? 0 then 0 else amount) + taken rest
  | _ :: rest => taken rest
  end.

(** [from_frequency(z)] stores [1_000_000_000 // z]. *)
Definition integer_frequency_ok (z : Z) : bool :=
  match Rate.from_frequency (Py.Int z) with
  | Ok r => Rate.period_ns r =? _SECOND_AS_NS / z
  | Raise _ => false
  end.

(** [P] holds of the [n] integers from [d] on. *)
Fixpoint all_from (P : Z -> bool) (n : nat) (d : Z) : bool :=
  match n with
  | O => true
  | S n' => P d && all_from P n' (d + 1)
  end.

(** When [d] divides a second, [from_frequency] is right on [d] and on
    the cofactor. *)
Definition divisor_pair_ok (d : Z) : bool :=
  if _SECOND_AS_NS mod d =? 0
  then integer_frequency_ok d && integer_frequency_ok (_SECOND_AS_NS / d)
  else true.

(** What a sequence of [remove] calls takes out: a negative amount
    raises and takes nothing. *)
Fixpoint removed (amounts : list Z) : Z :=
  match amounts with
  | [] => 0
  | amount :: rest => (if amount <? 0 then 0 else amount) + removed rest
  end.

(** Projections of the records and the small steps, computed without
    touching the arithmetic. *)
Ltac fields :=
  cbn [Bucket._volume Bucket._refill_rate Bucket._current
       Bucket._last_refill_ns Bucket.set_current Bucket.set_last_refill_ns
       Rate.period_ns RateLimiter._bucket Run.step snd fst].

Tactic Notation "fields" "in" hyp(H) :=
  cbn [Bucket._volume Bucket._refill_rate Bucket._current
       Bucket._last_refill_ns Bucket.set_current Bucket.set_last_refill_ns
       Rate.period_ns RateLimiter._bucket Run.step snd fst] in H.

(** * Facts about binary64 rounding *)

Lemma rbind_Ok {A B : Type} (a : A) (k : A -> result B) :
  rbind (Ok a) k = k a.
Proof. reflexivity. Qed.

Example one_per_second : Rate.__init__ 1 _SECOND_AS_NS = Ok _ONE_PER_SECOND.
Proof. reflexivity. Qed.

(** The float literals are the doubles they are named after. *)
Example float_literals :
  Py.float_of_int 1 = Ok Py.f_1_0 /\
  Py.float_of_int (-1) = Ok Py.f_neg_1_0 /\
  Py.float_of_int 2 = Ok Py.f_2_0 /\
  Py.float_of_int 2000000000 = Ok Py.f_2e9 /\
  binary_normalize Py.prec Py.emax 3 (-1) false = Py.f_1_5.
Proof. repeat split; reflexivity. Qed.

Section Rounding.

Lemma digits2_pos_size (p : positive) : digits2_pos p = Pos.size p.
Proof. induction p; simpl; congruence. Qed.

Lemma Zdigits2_log2 (m : Z) : 0 < m -> Zdigits2 m = Z.log2 m + 1.
Proof.
  destruct m as [|p|p]; try lia. intros _. simpl.
  rewrite digits2_pos_size.
  destruct p; simpl; try rewrite Pos2Z.inj_succ; lia.
Qed.

Lemma Zdigits2_bounds (m : Z) :
  0 < m -> 0 < Zdigits2 m /\ 2 ^ (Zdigits2 m - 1) <= m < 2 ^ Zdigits2 m.
Proof.
  intros H. rewrite (Zdigits2_log2 m H).
  pose proof (Z.log2_spec m H) as L. pose proof (Z.log2_nonneg m).
  replace (Z.log2 m + 1 - 1) with (Z.log2 m) by lia.
  replace (Z.log2 m + 1) with (Z.succ (Z.log2 m)) by lia. lia.
Qed.

Lemma Zdigits2_0 : Zdigits2 0 = 0.
Proof. reflexivity. Qed.

(** One right shift halves the mantissa and moves its low bit into the
    round bit. *)
Lemma shr_1_spec (mrs : shr_record) :
  0 <= shr_m mrs ->
  shr_m (shr_1 mrs) = shr_m mrs / 2 /\ shr_r (shr_1 mrs) = Z.odd (shr_m mrs).
Proof.
  destruct mrs as [m r s]. simpl. intros Hm.
  destruct m as [|p|p]; try lia.
  - split; reflexivity.
  - destruct p as [p|p|]; simpl; split; try reflexivity.
    + rewrite Pos2Z.inj_xI. apply Z.div_unique with 1; lia.
    + rewrite Pos2Z.inj_xO. apply Z.div_unique with 0; lia.
Qed.

Lemma div_pow2_nonneg (m k : Z) : 0 <= m -> 0 <= m / 2 ^ k.
Proof.
  intros Hm. destruct (Z.le_gt_cases 0 k) as [Hk|Hk].
  - apply Z.div_pos; [lia | apply Z.pow_pos_nonneg; lia].
  - rewrite Z.pow_neg_r by lia. now rewrite Z.div_0_r.
Qed.

Lemma div_pow2_pow2 (m j k : Z) :
  0 <= j -> 0 <= k -> m / 2 ^ j / 2 ^ k = m / 2 ^ (j + k).
Proof.
  intros Hj Hk. rewrite Z.pow_add_r by lia.
  apply Z.div_div; [apply Z.pow_nonzero; lia | apply Z.pow_pos_nonneg; lia].
Qed.

Lemma iter_shr_1_spec (p : positive) :
  forall mrs, 0 <= shr_m mrs ->
    shr_m (iter_pos shr_1 p mrs) = shr_m mrs / 2 ^ Zpos p /\
    shr_r (iter_pos shr_1 p mrs) = Z.odd (shr_m mrs / 2 ^ (Zpos p - 1)).
Proof.
  induction p as [p IH|p IH|]; intros mrs Hm; simpl iter_pos.
  - destruct (shr_1_spec mrs Hm) as [H1 _].
    assert (H1' : 0 <= shr_m (shr_1 mrs))
      by (rewrite H1; apply Z.div_pos; lia).
    destruct (IH _ H1') as [H2 _].
    assert (H2' : 0 <= shr_m (iter_pos shr_1 p (shr_1 mrs)))
      by (rewrite H2; now apply div_pow2_nonneg).
    destruct (IH _ H2') as [H3 H4].
    rewrite H3, H4, H2, H1.
    change (shr_m mrs / 2) with (shr_m mrs / 2 ^ 1).
    rewrite !div_pow2_pow2 by lia.
    split; f_equal; f_equal; f_equal; lia.
  - destruct (IH _ Hm) as [H2 _].
    assert (H2' : 0 <= shr_m (iter_pos shr_1 p mrs))
      by (rewrite H2; now apply div_pow2_nonneg).
    destruct (IH _ H2') as [H3 H4].
    rewrite H3, H4, H2.
    rewrite !div_pow2_pow2 by lia.
    split; f_equal; f_equal; f_equal; lia.
  - destruct (shr_1_spec mrs Hm) as [H1 H2]. rewrite H1, H2.
    split; [reflexivity|]. now rewrite Z.div_1_r.
Qed.

Lemma shr_spec (mrs : shr_record) (e n : Z) :
  0 <= shr_m mrs ->
  shr_m (fst (shr mrs e n)) = shr_m mrs / 2 ^ Z.max n 0 /\
  snd (shr mrs e n) = e + Z.max n 0 /\
  (0 < n -> shr_r (fst (shr mrs e n)) = Z.odd (shr_m mrs / 2 ^ (n - 1))) /\
  (n <= 0 -> fst (shr mrs e n) = mrs).
Proof.
  intros Hm. destruct n as [|p|p]; simpl.
  - rewrite Z.div_1_r. repeat split; try lia.
  - destruct (iter_shr_1_spec p mrs Hm) as [H1 H2].
    repeat split; auto. lia.
  - rewrite Z.div_1_r. repeat split; try lia.
Qed.

Lemma round_nearest_even_cases (m : Z) (l : location) :
  round_nearest_even m l = m \/
  (round_nearest_even m l = m + 1 /\
   (l = loc_Inexact Eq \/ l = loc_Inexact Gt)).
Proof.
  destruct l as [|[| |]]; simpl; auto.
  destruct (Z.even m); auto.
Qed.

Lemma loc_of_shr_record_up (mrs : shr_record) :
  loc_of_shr_record mrs = loc_Inexact Eq \/
  loc_of_shr_record mrs = loc_Inexact Gt ->
  shr_r mrs = true.
Proof.
  destruct mrs as [m [|] [|]]; simpl; intros [H|H]; congruence.
Qed.

Lemma shr_m_of_loc (m : Z) (l : location) : shr_m (shr_record_of_loc m l) = m.
Proof. destruct l as [|[| |]]; reflexivity. Qed.

Lemma loc_of_shr_record_of_loc (m : Z) (l : location) :
  loc_of_shr_record (shr_record_of_loc m l) = l.
Proof. destruct l as [|[| |]]; reflexivity. Qed.

Lemma new_location_up (b r : Z) :
  new_location b r = loc_Inexact Eq \/ new_location b r = loc_Inexact Gt ->
  b <= 2 * r.
Proof.
  unfold new_location, new_location_even, new_location_odd.
  destruct (Z.even b); destruct (r =? 0);
    try (intros [H|H]; discriminate H).
  - destruct (Z.compare_spec (2 * r) b) as [E|E|E]; intros [H|H];
      try discriminate H; lia.
  - destruct (Z.compare_spec (2 * r + 1) b) as [E|E|E]; intros [H|H];
      try discriminate H; lia.
Qed.

(** *** Arithmetic of a scaled quotient *)

Lemma scaled_div_shift (a b s k : Z) :
  0 < b -> 0 <= k <= s -> a * 2 ^ s / b / 2 ^ k = a * 2 ^ (s - k) / b.
Proof.
  intros Hb Hk.
  assert (0 < 2 ^ k) by (apply Z.pow_pos_nonneg; lia).
  rewrite Z.div_div by lia.
  replace (a * 2 ^ s) with (a * 2 ^ (s - k) * 2 ^ k).
  - apply Z.div_mul_cancel_r; lia.
  - rewrite <- Z.mul_assoc, <- Z.pow_add_r by lia. do 2 f_equal. lia.
Qed.

Lemma scaled_div_back (a b j : Z) :
  0 < b -> 0 <= j -> a * 2 ^ j / b / 2 ^ j = a / b.
Proof.
  intros Hb Hj. rewrite scaled_div_shift by lia.
  rewrite Z.sub_diag. simpl. now rewrite Z.mul_1_r.
Qed.

(** Rounding the scaled quotient up never reaches the next integer
    while the dividend has at most 53 bits. *)
Lemma round_up_no_carry (a b j m : Z) :
  0 < a < 2 ^ 53 -> 0 < b -> 0 <= j ->
  m = a * 2 ^ j / b ->
  2 ^ 52 <= m \/ j = 1074 ->
  (2 * m + 1) * b <= 2 * (a * 2 ^ j) ->
  (m + 1) / 2 ^ j = a / b.
Proof.
  intros Ha Hb Hj Hm Hn Hup.
  set (P := 2 ^ j) in *.
  assert (HP : 0 < P) by (apply Z.pow_pos_nonneg; lia).
  set (Q := a / b).
  assert (HQ1 : b * Q <= a) by (apply Z.mul_div_le; lia).
  assert (HQ2 : a < b * (Q + 1))
    by (pose proof (Z.mul_succ_div_gt a b Hb); unfold Q; lia).
  assert (Hm1 : b * m <= a * P) by (subst m; apply Z.mul_div_le; lia).
  assert (Hm2 : a * P < b * (m + 1))
    by (pose proof (Z.mul_succ_div_gt (a * P) b Hb); subst m; lia).
  assert (HaP : b * Q * P <= a * P) by (apply Z.mul_le_mono_nonneg_r; lia).
  assert (HaP2 : a * P < b * (Q + 1) * P)
    by (apply Z.mul_lt_mono_pos_r; lia).
  assert (Hlo : Q * P < m + 1).
  { apply Z.mul_lt_mono_pos_l with b; lia. }
  assert (Hhi : m < (Q + 1) * P).
  { apply Z.mul_lt_mono_pos_l with b; lia. }
  assert (Hne : m + 1 <> (Q + 1) * P).
  { intros Heq.
    assert (H2P : 2 * P <= b).
    { assert ((a + 1) * P <= b * (Q + 1) * P)
        by (apply Z.mul_le_mono_nonneg_r; lia).
      replace (2 * m + 1) with (2 * ((Q + 1) * P) - 1) in Hup by lia.
      lia. }
    assert (Hm52 : m < 2 ^ 52).
    { assert (m * (2 * P) <= m * b).
      { apply Z.mul_le_mono_nonneg_l; [|lia].
        subst m. apply Z.div_pos; lia. }
      assert (a * P < 2 ^ 53 * P) by (apply Z.mul_lt_mono_pos_r; lia).
      assert (2 * m * P < 2 ^ 53 * P) by lia.
      assert (2 * m < 2 ^ 53) by (apply Z.mul_lt_mono_pos_r with P; lia).
      change (2 ^ 53) with (2 * 2 ^ 52) in *. lia. }
    destruct Hn as [Hn|Hn]; [lia|].
    assert (0 <= Q) by (apply Z.div_pos; lia).
    assert (P <= (Q + 1) * P) by nia.
    assert (2 ^ 52 < P).
    { unfold P. apply Z.pow_lt_mono_r; lia. }
    lia. }
  symmetry. apply Z.div_unique with (m + 1 - Q * P).
  - left. lia.
  - lia.
Qed.

Lemma fexp_binary64 (e : Z) :
  fexp Py.prec Py.emax e = Z.max (e - 53) (-1074).
Proof. reflexivity. Qed.

Lemma odd_double_half (t : Z) : Z.odd t = true -> t = 2 * (t / 2) + 1.
Proof.
  intros Ht. pose proof (Z.div_mod t 2 ltac:(lia)) as D.
  rewrite Zmod_odd, Ht in D. exact D.
Qed.

Lemma digits_le_of_lt_pow2 (m n : Z) :
  0 <= m < 2 ^ n -> 0 <= n -> Zdigits2 m <= n.
Proof.
  intros [Hm0 Hm] Hn.
  destruct (Z.eq_dec m 0) as [->|Hne]; [rewrite Zdigits2_0; lia|].
  destruct (Zdigits2_bounds m ltac:(lia)) as [Hd [Hlo _]].
  destruct (Z.le_gt_cases (Zdigits2 m) n) as [|Hgt]; [assumption|].
  assert (2 ^ n <= 2 ^ (Zdigits2 m - 1)) by (apply Z.pow_le_mono_r; lia).
  lia.
Qed.

(** The quotient of a dividend of at most 53 bits, rounded to binary64
    and truncated, is the integer quotient. *)
Lemma binary_round_aux_div_trunc (sx : bool) (a b s : Z) (l : location) :
  0 < a < 2 ^ 53 -> 0 < b -> 0 <= s <= 1074 ->
  2 ^ 52 <= a * 2 ^ s / b \/ s = 1074 ->
  (l = loc_Inexact Eq \/ l = loc_Inexact Gt ->
   b <= 2 * ((a * 2 ^ s) mod b)) ->
  Py.int_of_float
    (binary_round_aux Py.prec Py.emax sx (a * 2 ^ s / b) (- s) l)
  = Ok (cond_Zopp sx (a / b)).
Proof.
  intros Ha Hb Hs Hn Hl.
  assert (H2s : 0 < 2 ^ s) by (apply Z.pow_pos_nonneg; lia).
  set (q0 := a * 2 ^ s / b) in *.
  assert (Hq0 : 0 <= q0) by (apply Z.div_pos; nia).
  assert (Hq0b : b * q0 <= a * 2 ^ s) by (apply Z.mul_div_le; lia).
  assert (Hq0lt : q0 < 2 ^ (53 + s)).
  { rewrite Z.pow_add_r by lia.
    assert (a * 2 ^ s < 2 ^ 53 * 2 ^ s) by (apply Z.mul_lt_mono_pos_r; lia).
    nia. }
  pose proof (digits_le_of_lt_pow2 q0 (53 + s) ltac:(lia) ltac:(lia)) as Hdq.
  assert (Hdq0 : 0 <= Zdigits2 q0).
  { destruct (Z.eq_dec q0 0) as [->|]; [rewrite Zdigits2_0; lia|].
    destruct (Zdigits2_bounds q0); lia. }
  unfold binary_round_aux, shr_fexp.
  (* the first shift brings the mantissa to 53 bits *)
  set (n1 := fexp Py.prec Py.emax (Zdigits2 q0 + - s) - - s).
  assert (Hn1 : n1 = Z.max (Zdigits2 q0 - 53) (s - 1074))
    by (unfold n1; rewrite fexp_binary64; lia).
  pose proof (shr_spec (shr_record_of_loc q0 l) (- s) n1) as S1.
  rewrite shr_m_of_loc in S1. specialize (S1 Hq0).
  destruct (shr (shr_record_of_loc q0 l) (- s) n1) as [mrs' e'] eqn:E1.
  simpl fst in S1; simpl snd in S1.
  destruct S1 as (S1m & S1e & S1r & S1id).
  set (k := Z.max n1 0) in *.
  set (j := s - k).
  assert (Hk : 0 <= k <= s) by lia.
  assert (Hj : 0 <= j) by (unfold j; lia).
  assert (H2k : 0 < 2 ^ k) by (apply Z.pow_pos_nonneg; lia).
  assert (H2j : 0 < 2 ^ j) by (apply Z.pow_pos_nonneg; lia).
  set (m := shr_m mrs') in *.
  assert (Hm : m = a * 2 ^ j / b).
  { rewrite S1m. unfold q0, j. apply scaled_div_shift; lia. }
  assert (Hm0 : 0 <= m) by (rewrite Hm; apply Z.div_pos; nia).
  assert (Hmj : m / 2 ^ j = a / b)
    by (rewrite Hm; apply scaled_div_back; lia).
  assert (Hnorm : 2 ^ 52 <= m \/ j = 1074).
  { destruct Hn as [Hn|Hn].
    - left.
      destruct (Zdigits2_bounds q0 ltac:(lia)) as [Hd [Hlo Hhi]].
      assert (53 <= Zdigits2 q0).
      { destruct (Z.le_gt_cases 53 (Zdigits2 q0)) as [|Hlt]; [assumption|].
        assert (2 ^ Zdigits2 q0 <= 2 ^ 52) by (apply Z.pow_le_mono_r; lia).
        lia. }
      assert (Hkd : k = Zdigits2 q0 - 53) by lia.
      rewrite S1m. apply Z.div_le_lower_bound; [lia|].
      rewrite <- Z.pow_add_r by lia.
      replace (k + 52) with (Zdigits2 q0 - 1) by lia. lia.
    - destruct (Z.le_gt_cases n1 0) as [Hle|Hgt].
      + right. unfold j. lia.
      + left.
        assert (Hq0pos : 0 < q0).
        { destruct (Z.eq_dec q0 0) as [E|]; [|lia].
          rewrite E, Zdigits2_0 in Hn1. lia. }
        destruct (Zdigits2_bounds q0 Hq0pos) as [Hd [Hlo Hhi]].
        assert (Hkd : k = Zdigits2 q0 - 53) by lia.
        rewrite S1m. apply Z.div_le_lower_bound; [lia|].
        rewrite <- Z.pow_add_r by lia.
        replace (k + 52) with (Zdigits2 q0 - 1) by lia. lia. }
  set (m1 := round_nearest_even m (loc_of_shr_record mrs')).
  assert (Hm1 : m1 / 2 ^ j = a / b).
  { destruct (round_nearest_even_cases m (loc_of_shr_record mrs'))
      as [Hsame|[Hup Hloc]]; fold m1 in Hsame || fold m1 in Hup.
    - now rewrite Hsame.
    - rewrite Hup. apply round_up_no_carry; auto.
      pose proof (loc_of_shr_record_up _ Hloc) as Hr.
      destruct (Z.le_gt_cases n1 0) as [Hle|Hgt].
      + specialize (S1id Hle). subst mrs'.
        rewrite loc_of_shr_record_of_loc in Hloc.
        assert (Hk0 : k = 0) by lia.
        assert (Hjs : j = s) by (unfold j; lia).
        assert (Hmq : m = q0).
        { rewrite S1m, Hk0. simpl. apply Z.div_1_r. }
        rewrite Hjs, Hmq.
        specialize (Hl Hloc).
        pose proof (Z.div_mod (a * 2 ^ s) b ltac:(lia)) as D.
        fold q0 in D. lia.
      + specialize (S1r Hgt). rewrite Hr in S1r. symmetry in S1r.
        assert (Hkn : k = n1) by lia. rewrite <- Hkn in S1r.
        set (t := q0 / 2 ^ (k - 1)) in *.
        assert (H2k1 : 0 < 2 ^ (k - 1)) by (apply Z.pow_pos_nonneg; lia).
        assert (Ht2 : t / 2 = m).
        { rewrite S1m. unfold t. change 2 with (2 ^ 1) at 2.
          rewrite div_pow2_pow2 by lia. f_equal. f_equal. lia. }
        pose proof (odd_double_half t S1r) as Ht. rewrite Ht2 in Ht.
        assert (Htq : 2 ^ (k - 1) * t <= q0)
          by (apply Z.mul_div_le; lia).
        assert (Hsplit : a * 2 ^ s = 2 * (a * 2 ^ j) * 2 ^ (k - 1)).
        { replace s with (j + 1 + (k - 1)) at 1 by (unfold j; lia).
          rewrite !Z.pow_add_r by lia. change (2 ^ 1) with 2. ring. }
        assert (Hc : (2 * m + 1) * b * 2 ^ (k - 1)
                     <= 2 * (a * 2 ^ j) * 2 ^ (k - 1)).
        { rewrite <- Hsplit. rewrite <- Ht.
          apply Z.le_trans with (b * q0); [|assumption].
          replace (t * b * 2 ^ (k - 1)) with (b * (2 ^ (k - 1) * t))
            by ring.
          apply Z.mul_le_mono_nonneg_l; lia. }
        apply Z.mul_le_mono_pos_r in Hc; assumption. }
  assert (Hm1nn : 0 <= m1).
  { destruct (round_nearest_even_cases m (loc_of_shr_record mrs'))
      as [Hsame|[Hup _]]; fold m1 in Hsame || fold m1 in Hup; lia. }
  (* the second shift absorbs a mantissa that rounding made 54 bits *)
  set (n2 := fexp Py.prec Py.emax (Zdigits2 m1 + e') - e').
  pose proof (shr_spec (shr_record_of_loc m1 loc_Exact) e' n2) as S2.
  rewrite shr_m_of_loc in S2. specialize (S2 Hm1nn).
  destruct (shr (shr_record_of_loc m1 loc_Exact) e' n2)
    as [mrs'' e''] eqn:E2.
  simpl fst in S2; simpl snd in S2.
  destruct S2 as (S2m & S2e & _ & _).
  set (k2 := Z.max n2 0) in *.
  assert (Hq53 : a / b < 2 ^ 53).
  { apply Z.div_lt_upper_bound; [lia|]. nia. }
  assert (Hm1lt : m1 < 2 ^ (53 + j)).
  { rewrite Z.pow_add_r by lia.
    pose proof (Z.mul_succ_div_gt m1 (2 ^ j) H2j) as G.
    rewrite Hm1 in G. nia. }
  pose proof (digits_le_of_lt_pow2 m1 (53 + j) ltac:(lia) ltac:(lia))
    as Hdm1.
  assert (Hn2 : n2 = Z.max (Zdigits2 m1 - 53) (j - 1074)).
  { unfold n2. rewrite fexp_binary64, S1e. unfold j. lia. }
  assert (Hk2 : 0 <= k2 <= j) by (unfold j in *; lia).
  assert (He'' : e'' = - (j - k2)) by (rewrite S2e, S1e; unfold j; lia).
  assert (Hfin : shr_m mrs'' / 2 ^ (j - k2) = a / b).
  { rewrite S2m, div_pow2_pow2 by lia.
    replace (k2 + (j - k2)) with j by lia. exact Hm1. }
  destruct (shr_m mrs'') as [|pf|pf] eqn:Emf.
  - simpl. rewrite <- Hfin. rewrite Z.div_0_l.
    + now destruct sx.
    + apply Z.pow_nonzero; lia.
  - replace (e'' <=? Py.emax - Py.prec) with true
      by (symmetry; apply Z.leb_le; unfold Py.emax, Py.prec; lia).
    unfold Py.int_of_float. do 2 f_equal.
    destruct (Z.leb_spec 0 e'') as [Hpos|Hneg].
    + assert (Hjk : j - k2 = 0) by lia.
      rewrite Hjk in Hfin. rewrite <- Hfin.
      replace e'' with 0 by lia. simpl (2 ^ 0).
      now rewrite Z.mul_1_r, Z.div_1_r.
    + rewrite <- Hfin. f_equal. f_equal. lia.
  - exfalso.
    assert (0 <= m1 / 2 ^ k2) by (apply div_pow2_nonneg; lia).
    lia.
Qed.

Lemma div_eucl_div_mod (a b : Z) : Z.div_eucl a b = (a / b, a mod b).
Proof. unfold Z.div, Z.modulo. now destruct (Z.div_eucl a b). Qed.

Lemma SFdiv_core_binary_small (a b : Z) :
  0 < a < 2 ^ 53 -> 0 < b ->
  exists s,
    SFdiv_core_binary Py.prec Py.emax a 0 b 0
    = (a * 2 ^ s / b, - s, new_location b ((a * 2 ^ s) mod b)) /\
    0 <= s <= 1074 /\
    (2 ^ 52 <= a * 2 ^ s / b \/ s = 1074).
Proof.
  intros Ha Hb.
  destruct (Zdigits2_bounds a ltac:(lia)) as [Hda [Halo Hahi]].
  destruct (Zdigits2_bounds b Hb) as [Hdb [Hblo Hbhi]].
  pose proof (digits_le_of_lt_pow2 a 53 ltac:(lia) ltac:(lia)) as Hda53.
  unfold SFdiv_core_binary. rewrite fexp_binary64.
  set (e' := Z.min (Z.max (Zdigits2 a + 0 - (Zdigits2 b + 0) - 53) (-1074))
               (0 - 0)).
  assert (He' : - 1074 <= e' <= - 1) by (unfold e'; lia).
  exists (- e').
  replace (0 - 0 - e') with (- e') by lia.
  destruct (- e') as [|ps|ps] eqn:Es; try lia.
  rewrite <- Es. rewrite Z.shiftl_mul_pow2 by lia.
  rewrite div_eucl_div_mod.
  replace (- - e') with e' by lia.
  split; [reflexivity|]. split; [lia|].
  destruct (Z.eq_dec (- e') 1074) as [|Hne]; [now right|left].
  apply Z.div_le_lower_bound; [assumption|].
  assert (Hs : - e' = 53 + Zdigits2 b - Zdigits2 a) by (unfold e' in *; lia).
  rewrite Hs.
  replace (53 + Zdigits2 b - Zdigits2 a)
    with (52 + Zdigits2 b - (Zdigits2 a - 1)) by lia.
  assert (H1 : 0 < 2 ^ (Zdigits2 a - 1)) by (apply Z.pow_pos_nonneg; lia).
  assert (H2 : 0 < 2 ^ (52 + Zdigits2 b - (Zdigits2 a - 1)))
    by (apply Z.pow_pos_nonneg; lia).
  assert (H3 : 2 ^ (Zdigits2 a - 1) * 2 ^ (52 + Zdigits2 b - (Zdigits2 a - 1))
               = 2 ^ 52 * 2 ^ Zdigits2 b).
  { rewrite <- !Z.pow_add_r by lia. f_equal. lia. }
  nia.
Qed.

Lemma SFdiv_small (sa sb : bool) (pa pb : positive) :
  Zpos pa < 2 ^ 53 ->
  Py.int_of_float
    (SFdiv Py.prec Py.emax (S754_finite sa pa 0) (S754_finite sb pb 0))
  = Ok (cond_Zopp (xorb sa sb) (Zpos pa / Zpos pb)).
Proof.
  intros Ha. unfold SFdiv.
  destruct (SFdiv_core_binary_small (Zpos pa) (Zpos pb)
              ltac:(lia) ltac:(lia)) as (s & Hcore & Hs & Hn).
  rewrite Hcore.
  apply binary_round_aux_div_trunc; try lia; try assumption.
  apply new_location_up.
Qed.

Lemma no_overflow_of_int (x : spec_float) (v : Z) :
  Py.int_of_float x = Ok v ->
  (q <- Py.check_overflow x ;; Py.int_of_float q)%result = Ok v.
Proof. destruct x; simpl; intros H; try discriminate H; exact H. Qed.

(** [int(a / b)] is the quotient truncated toward zero as long as the
    dividend is below [2 ^ 53] in absolute value. *)
Lemma int_of_truediv_small (a b : Z) :
  Z.abs a < 2 ^ 53 -> b <> 0 ->
  Py.int_of_truediv a b = Ok (Z.quot a b).
Proof.
  intros Ha Hb. unfold Py.int_of_truediv, Py.int_truediv.
  rewrite (proj2 (Z.eqb_neq b 0) Hb).
  apply no_overflow_of_int.
  rewrite Z.quot_div by assumption.
  destruct a as [|pa|pa]; destruct b as [|pb|pb]; try lia;
    try reflexivity; unfold Py.exact; rewrite SFdiv_small by lia;
    simpl; f_equal;
    destruct (Z.pos pa / Z.pos pb); reflexivity.
Qed.

Lemma int_of_truediv_nonneg (a b : Z) :
  0 <= a < 2 ^ 53 -> 0 < b ->
  Py.int_of_truediv a b = Ok (a / b).
Proof.
  intros Ha Hb. rewrite int_of_truediv_small by lia.
  now rewrite Z.quot_div_nonneg by lia.
Qed.

Lemma int_of_truediv_zero (a : Z) :
  Py.int_of_truediv a 0 = Raise ZeroDivisionError.
Proof. reflexivity. Qed.

(** *** Signs *)

Lemma round_nearest_even_nonneg (m : Z) (l : location) :
  0 <= m -> 0 <= round_nearest_even m l.
Proof.
  intros Hm.
  destruct (round_nearest_even_cases m l) as [H|[H _]]; lia.
Qed.

(** Rounding keeps the sign it is given and never yields a NaN. *)
Lemma binary_round_aux_sign (sx : bool) (mx ex : Z) (lx : location) :
  0 <= mx ->
  Py.has_sign sx (binary_round_aux Py.prec Py.emax sx mx ex lx).
Proof.
  intros Hm. unfold binary_round_aux, shr_fexp.
  pose proof (shr_spec (shr_record_of_loc mx lx) ex
                (fexp Py.prec Py.emax (Zdigits2 mx + ex) - ex)) as S1.
  rewrite shr_m_of_loc in S1. specialize (S1 Hm).
  destruct (shr (shr_record_of_loc mx lx) ex _) as [mrs' e'].
  simpl fst in S1. destruct S1 as (S1m & _).
  assert (H1 : 0 <= shr_m mrs')
    by (rewrite S1m; apply div_pow2_nonneg; assumption).
  pose proof (round_nearest_even_nonneg _ (loc_of_shr_record mrs') H1)
    as H2.
  set (m1 := round_nearest_even (shr_m mrs') (loc_of_shr_record mrs'))
    in *.
  pose proof (shr_spec (shr_record_of_loc m1 loc_Exact) e'
                (fexp Py.prec Py.emax (Zdigits2 m1 + e') - e')) as S2.
  rewrite shr_m_of_loc in S2. specialize (S2 H2).
  destruct (shr (shr_record_of_loc m1 loc_Exact) e' _) as [mrs'' e''].
  simpl fst in S2. destruct S2 as (S2m & _).
  assert (H3 : 0 <= shr_m mrs'')
    by (rewrite S2m; apply div_pow2_nonneg; assumption).
  destruct (shr_m mrs'') as [|pf|pf]; simpl; try reflexivity; try lia.
  destruct (e'' <=? _); simpl; reflexivity.
Qed.

Lemma SFdiv_core_binary_nonneg (m1 e1 m2 e2 : Z) :
  0 < m1 -> 0 < m2 ->
  0 <= fst (fst (SFdiv_core_binary Py.prec Py.emax m1 e1 m2 e2)).
Proof.
  intros H1 H2. unfold SFdiv_core_binary.
  rewrite div_eucl_div_mod. simpl.
  apply Z.div_pos; [|assumption].
  destruct (e1 - e2 - _) as [|ps|ps]; try lia.
  apply Z.shiftl_nonneg. lia.
Qed.

Lemma SFdiv_finite_sign (sx sy : bool) (mx my : positive) (ex ey : Z) :
  Py.has_sign (xorb sx sy)
    (SFdiv Py.prec Py.emax (S754_finite sx mx ex) (S754_finite sy my ey)).
Proof.
  unfold SFdiv.
  pose proof (SFdiv_core_binary_nonneg (Zpos mx) ex (Zpos my) ey
                ltac:(lia) ltac:(lia)) as H.
  destruct (SFdiv_core_binary _ _ _ _ _ _) as [[q e] l]. simpl in H.
  now apply binary_round_aux_sign.
Qed.

Lemma SFdiv_by_signed (sx sy : bool) (mx : positive) (ex : Z)
    (y : spec_float) :
  Py.has_sign sy y -> Py.is_zero y = false ->
  Py.has_sign (xorb sx sy) (SFdiv Py.prec Py.emax (S754_finite sx mx ex) y).
Proof.
  destruct y as [s|s| |s m e]; simpl; intros Hs Hz;
    try discriminate; try contradiction; subst.
  - reflexivity.
  - apply SFdiv_finite_sign.
Qed.

Lemma SFmul_by_finite_sign (sx sy : bool) (x : spec_float)
    (my : positive) (ey : Z) :
  Py.has_sign sx x ->
  Py.has_sign (xorb sx sy)
    (SFmul Py.prec Py.emax x (S754_finite sy my ey)).
Proof.
  destruct x as [s|s| |s m e]; simpl; intros Hs;
    try contradiction; subst; try reflexivity.
  apply binary_round_aux_sign. lia.
Qed.

(** [int] of a signed float raises on an infinity only, and keeps the
    sign. *)
Lemma int_of_float_sign (s : bool) (x : spec_float) :
  Py.has_sign s x ->
  Py.int_of_float x = Raise OverflowError \/
  exists v, Py.int_of_float x = Ok v /\
            if s then v <= 0 else 0 <= v.
Proof.
  destruct x as [s'|s'| |s' m e]; unfold Py.int_of_float, Py.has_sign;
    intros Hs; try contradiction; subst s'.
  - right. exists 0. split; [reflexivity|]. destruct s; lia.
  - now left.
  - right. eexists. split; [reflexivity|].
    assert (0 <= (if 0 <=? e then Z.pos m * 2 ^ e
                  else Z.pos m / 2 ^ (- e))).
    { destruct (Z.leb_spec 0 e).
      - apply Z.mul_nonneg_nonneg; [lia|]. apply Z.pow_nonneg. lia.
      - apply div_pow2_nonneg. lia. }
    destruct s; unfold cond_Zopp; lia.
Qed.

Lemma check_overflow_sign (s : bool) (x : spec_float) :
  Py.has_sign s x ->
  Py.check_overflow x = Raise OverflowError \/
  (Py.check_overflow x = Ok x /\ Py.has_sign s x).
Proof.
  destruct x; simpl; intros H; try contradiction; auto.
Qed.

(** [int(a / b)] for a positive [b] of any size: the only possible
    exception is an overflow, and the sign of [a] is kept. *)
Lemma int_of_truediv_sign (a b : Z) :
  0 < b ->
  Py.int_of_truediv a b = Raise OverflowError \/
  exists v, Py.int_of_truediv a b = Ok v /\
            (0 <= a -> 0 <= v) /\ (a <= 0 -> v <= 0).
Proof.
  intros Hb. unfold Py.int_of_truediv, Py.int_truediv.
  rewrite (proj2 (Z.eqb_neq b 0)) by lia.
  destruct b as [|pb|pb]; try lia.
  destruct a as [|pa|pa]; unfold Py.exact.
  - right. exists 0. simpl. repeat split; lia.
  - pose proof (SFdiv_finite_sign false false pa pb 0 0) as H.
    destruct (check_overflow_sign _ _ H) as [E|[E _]]; rewrite E;
      [now left|]. simpl rbind.
    destruct (int_of_float_sign _ _ H) as [E'|(v & E' & Hv)];
      [now left|].
    right. exists v. simpl in Hv. repeat split; auto; lia.
  - pose proof (SFdiv_finite_sign true false pa pb 0 0) as H.
    destruct (check_overflow_sign _ _ H) as [E|[E _]]; rewrite E;
      [now left|]. simpl rbind.
    destruct (int_of_float_sign _ _ H) as [E'|(v & E' & Hv)];
      [now left|].
    right. exists v. simpl in Hv. repeat split; auto; lia.
Qed.

(** *** Canonical results *)

Lemma Zdigits2_unique (m d : Z) :
  0 < m -> 2 ^ (d - 1) <= m < 2 ^ d -> Zdigits2 m = d.
Proof.
  intros Hm [Hlo Hhi].
  destruct (Zdigits2_bounds m Hm) as [Hd [Hlo' Hhi']].
  destruct (Z.lt_total (Zdigits2 m) d) as [Hlt|[Heq|Hgt]];
    [|assumption|].
  - assert (2 ^ Zdigits2 m <= 2 ^ (d - 1))
      by (apply Z.pow_le_mono_r; lia). lia.
  - assert (2 ^ d <= 2 ^ (Zdigits2 m - 1))
      by (apply Z.pow_le_mono_r; lia). lia.
Qed.

Lemma pow2_le_digits (m k : Z) :
  0 <= k -> 2 ^ k <= m -> k + 1 <= Zdigits2 m.
Proof.
  intros Hk Hm.
  assert (0 < 2 ^ k) by (apply Z.pow_pos_nonneg; lia).
  destruct (Zdigits2_bounds m ltac:(lia)) as [Hd [_ Hhi]].
  destruct (Z.le_gt_cases (k + 1) (Zdigits2 m)) as [|Hgt]; [assumption|].
  assert (2 ^ Zdigits2 m <= 2 ^ k) by (apply Z.pow_le_mono_r; lia). lia.
Qed.

Lemma Zdigits2_div_pow2 (m k : Z) :
  0 <= k -> 2 ^ k <= m -> Zdigits2 (m / 2 ^ k) = Zdigits2 m - k.
Proof.
  intros Hk Hm.
  assert (H2k : 0 < 2 ^ k) by (apply Z.pow_pos_nonneg; lia).
  destruct (Zdigits2_bounds m ltac:(lia)) as [Hd [Hlo Hhi]].
  pose proof (pow2_le_digits m k Hk Hm) as Hkd.
  assert (Hq : 0 < m / 2 ^ k) by (apply Z.div_str_pos; lia).
  apply Zdigits2_unique; [assumption|]. split.
  - apply Z.div_le_lower_bound; [assumption|].
    rewrite <- Z.pow_add_r by lia.
    replace (k + (Zdigits2 m - k - 1)) with (Zdigits2 m - 1) by lia.
    assumption.
  - apply Z.div_lt_upper_bound; [assumption|].
    rewrite <- Z.pow_add_r by lia.
    replace (k + (Zdigits2 m - k)) with (Zdigits2 m) by lia.
    assumption.
Qed.

Lemma Zdigits2_mul_pow2 (m e : Z) :
  0 < m -> 0 <= e -> Zdigits2 (m * 2 ^ e) = Zdigits2 m + e.
Proof.
  intros Hm He.
  assert (H2e : 0 < 2 ^ e) by (apply Z.pow_pos_nonneg; lia).
  destruct (Zdigits2_bounds m Hm) as [Hd [Hlo Hhi]].
  apply Zdigits2_unique; [nia|].
  replace (Zdigits2 m + e - 1) with (Zdigits2 m - 1 + e) by lia.
  rewrite !Z.pow_add_r by lia. split.
  - apply Z.mul_le_mono_nonneg_r; lia.
  - apply Z.mul_lt_mono_pos_r; lia.
Qed.

Lemma Zdigits2_mono (a b : Z) : 0 <= a <= b -> Zdigits2 a <= Zdigits2 b.
Proof.
  intros [Ha Hab].
  destruct (Z.eq_dec b 0) as [->|Hb].
  - replace a with 0 by lia. lia.
  - destruct (Zdigits2_bounds b ltac:(lia)) as [Hd [_ Hhi]].
    apply digits_le_of_lt_pow2; lia.
Qed.

Lemma Zdigits2_pos (p : positive) : Zpos (digits2_pos p) = Zdigits2 (Zpos p).
Proof. reflexivity. Qed.

(** A mantissa whose exponent is not above the canonical one comes out
    of rounding as a valid binary64. *)
Lemma binary_round_aux_valid (sx : bool) (mx ex : Z) (lx : location) :
  0 <= mx ->
  ex <= fexp Py.prec Py.emax (Zdigits2 mx + ex) ->
  valid_binary Py.prec Py.emax
    (binary_round_aux Py.prec Py.emax sx mx ex lx) = true.
Proof.
  intros Hm Hex. unfold binary_round_aux, shr_fexp.
  set (n1 := fexp Py.prec Py.emax (Zdigits2 mx + ex) - ex).
  assert (Hn1 : 0 <= n1) by (unfold n1; lia).
  pose proof (shr_spec (shr_record_of_loc mx lx) ex n1) as S1.
  rewrite shr_m_of_loc in S1. specialize (S1 Hm).
  destruct (shr (shr_record_of_loc mx lx) ex n1) as [mrs' e'].
  simpl fst in S1; simpl snd in S1. destruct S1 as (S1m & S1e & _).
  rewrite Z.max_l in S1m, S1e by lia.
  set (m := shr_m mrs') in *.
  assert (H2n : 0 < 2 ^ n1) by (apply Z.pow_pos_nonneg; lia).
  assert (Hm0 : 0 <= m) by (rewrite S1m; apply Z.div_pos; lia).
  assert (HE : e' = fexp Py.prec Py.emax (Zdigits2 mx + ex))
    by (unfold n1 in S1e; lia).
  assert (HA : m = 0 -> e' = -1074).
  { intros Hz. rewrite HE, fexp_binary64 in *.
    destruct (Z.eq_dec mx 0) as [Hmx|Hmx].
    - rewrite Hmx, Zdigits2_0 in *. lia.
    - rewrite S1m in Hz. apply Z.div_small_iff in Hz; [|lia].
      destruct Hz as [Hz|Hz]; [|lia].
      pose proof (digits_le_of_lt_pow2 mx n1 ltac:(lia) Hn1) as Hd.
      unfold n1 in Hd. rewrite fexp_binary64 in Hd. lia. }
  assert (HB : 0 < m -> fexp Py.prec Py.emax (Zdigits2 m + e') = e').
  { intros Hpos.
    assert (2 ^ n1 <= mx).
    { destruct (Z.le_gt_cases (2 ^ n1) mx) as [|Hlt]; [assumption|].
      rewrite S1m, Z.div_small in Hpos by lia. lia. }
    rewrite S1m, Zdigits2_div_pow2 by lia.
    replace (Zdigits2 mx - n1 + e') with (Zdigits2 mx + ex) by lia.
    now symmetry. }
  set (m1 := round_nearest_even m (loc_of_shr_record mrs')).
  assert (Hm1 : m <= m1 <= m + 1).
  { destruct (round_nearest_even_cases m (loc_of_shr_record mrs'))
      as [H|[H _]]; fold m1 in H; lia. }
  assert (HC : e' <= fexp Py.prec Py.emax (Zdigits2 m1 + e')).
  { destruct (Z.eq_dec m 0) as [Hz|Hz].
    - rewrite (HA Hz), fexp_binary64. lia.
    - pose proof (HB ltac:(lia)) as HB'.
      pose proof (Zdigits2_mono m m1 ltac:(lia)).
      rewrite fexp_binary64 in *. lia. }
  set (n2 := fexp Py.prec Py.emax (Zdigits2 m1 + e') - e').
  assert (Hn2 : 0 <= n2) by (unfold n2; lia).
  pose proof (shr_spec (shr_record_of_loc m1 loc_Exact) e' n2) as S2.
  rewrite shr_m_of_loc in S2. specialize (S2 ltac:(lia)).
  destruct (shr (shr_record_of_loc m1 loc_Exact) e' n2) as [mrs'' e''].
  simpl fst in S2; simpl snd in S2. destruct S2 as (S2m & S2e & _).
  rewrite Z.max_l in S2m, S2e by lia.
  assert (H2n2 : 0 < 2 ^ n2) by (apply Z.pow_pos_nonneg; lia).
  destruct (shr_m mrs'') as [|pf|pf] eqn:Emf; try reflexivity.
  destruct (Z.leb_spec e'' (Py.emax - Py.prec)) as [Hle|Hgt];
    [|reflexivity].
  simpl. unfold bounded, canonical_mantissa.
  rewrite (proj2 (Z.leb_le _ _) Hle), andb_true_r.
  apply Z.eqb_eq. rewrite Zdigits2_pos, S2m.
  assert (2 ^ n2 <= m1).
  { destruct (Z.le_gt_cases (2 ^ n2) m1) as [|Hlt]; [assumption|].
    rewrite Z.div_small in S2m by lia. discriminate S2m. }
  rewrite Zdigits2_div_pow2 by lia.
  replace (Zdigits2 m1 - n2 + e'') with (Zdigits2 m1 + e') by lia.
  unfold n2 in S2e. lia.
Qed.

Lemma shift_cases (m s : Z) :
  0 <= s ->
  match s with
  | Z0 => m
  | Zpos _ => Z.shiftl m s
  | Zneg _ => 0
  end = m * 2 ^ s.
Proof.
  intros Hs. destruct s as [|ps|ps]; try lia.
  now rewrite Z.shiftl_mul_pow2 by lia.
Qed.

(** The scaled quotient that [SFdiv] hands to the rounding has its
    exponent at or below the canonical one. *)
Lemma SFdiv_core_binary_exponent (m1 e1 m2 e2 : Z) :
  0 < m1 -> 0 < m2 ->
  let '(q, e', _) := SFdiv_core_binary Py.prec Py.emax m1 e1 m2 e2 in
  0 <= q /\ e' <= fexp Py.prec Py.emax (Zdigits2 q + e').
Proof.
  intros H1 H2. unfold SFdiv_core_binary.
  destruct (Zdigits2_bounds m1 H1) as [Hd1 [Hlo1 Hhi1]].
  destruct (Zdigits2_bounds m2 H2) as [Hd2 [Hlo2 Hhi2]].
  set (D := Zdigits2 m1 + e1 - (Zdigits2 m2 + e2)).
  set (e' := Z.min (fexp Py.prec Py.emax D) (e1 - e2)).
  set (s := e1 - e2 - e').
  assert (Hs : 0 <= s) by (unfold s, e'; lia).
  assert (H2s : 0 < 2 ^ s) by (apply Z.pow_pos_nonneg; lia).
  assert (Hm' : match s with
                | Z0 => m1
                | Zpos _ => Z.shiftl m1 s
                | Zneg _ => 0
                end = m1 * 2 ^ s)
    by (apply shift_cases; assumption).
  rewrite Hm', div_eucl_div_mod.
  set (q := m1 * 2 ^ s / m2).
  assert (Hq : 0 <= q) by (apply Z.div_pos; nia).
  split; [assumption|].
  assert (He' : e' <= fexp Py.prec Py.emax D) by (unfold e'; lia).
  rewrite fexp_binary64 in *.
  destruct (Z.eq_dec q 0) as [Hz|Hnz].
  - rewrite Hz, Zdigits2_0.
    destruct (Z.le_gt_cases e' (-1074)) as [|Hgt]; [lia|]. exfalso.
    apply Z.div_small_iff in Hz; [|lia]. destruct Hz as [Hz|Hz]; [|lia].
    assert (Hlt : 2 ^ (Zdigits2 m1 - 1 + s) < 2 ^ Zdigits2 m2).
    { rewrite Z.pow_add_r by lia. nia. }
    apply Z.pow_lt_mono_r_iff in Hlt; lia.
  - assert (Hdq : Zdigits2 m1 + s - Zdigits2 m2 <= Zdigits2 q).
    { destruct (Zdigits2_bounds q ltac:(lia)) as [Hdq _].
      destruct (Z.le_gt_cases 0 (Zdigits2 m1 - 1 + s - Zdigits2 m2))
        as [Hk|Hk]; [|lia].
      pose proof (pow2_le_digits q
                    (Zdigits2 m1 - 1 + s - Zdigits2 m2) Hk) as P.
      assert (2 ^ (Zdigits2 m1 - 1 + s - Zdigits2 m2) <= q); [|lia].
      apply Z.div_le_lower_bound; [assumption|].
      assert (E : 2 ^ (Zdigits2 m1 - 1 + s - Zdigits2 m2)
                  * 2 ^ Zdigits2 m2
                  = 2 ^ (Zdigits2 m1 - 1) * 2 ^ s).
      { rewrite <- !Z.pow_add_r by lia. f_equal. lia. }
      assert (0 < 2 ^ (Zdigits2 m1 - 1 + s - Zdigits2 m2))
        by (apply Z.pow_pos_nonneg; lia).
      nia. }
    unfold s, D in *. lia.
Qed.

Lemma SFdiv_finite_valid (sx sy : bool) (mx my : positive) (ex ey : Z) :
  valid_binary Py.prec Py.emax
    (SFdiv Py.prec Py.emax (S754_finite sx mx ex) (S754_finite sy my ey))
  = true.
Proof.
  unfold SFdiv.
  pose proof (SFdiv_core_binary_exponent (Zpos mx) ex (Zpos my) ey
                ltac:(lia) ltac:(lia)) as H.
  destruct (SFdiv_core_binary _ _ _ _ _ _) as [[q e] l].
  destruct H as [Hq He]. now apply binary_round_aux_valid.
Qed.

Lemma SFdiv_valid (x y : spec_float) :
  valid_binary Py.prec Py.emax x = true ->
  match x with S754_finite _ _ _ => True | _ => False end ->
  valid_binary Py.prec Py.emax (SFdiv Py.prec Py.emax x y) = true.
Proof.
  destruct x as [| | |sx mx ex]; try contradiction. intros _ _.
  destruct y as [sy|sy| |sy my ey]; try reflexivity.
  apply SFdiv_finite_valid.
Qed.

(** The float [1e9], exactly. *)
Lemma float_of_second :
  Py.float_of_int _SECOND_AS_NS
  = Ok (S754_finite false 8388608000000000 (-23)).
Proof. reflexivity. Qed.

Lemma SFmul_second_valid (x : spec_float) :
  valid_binary Py.prec Py.emax x = true ->
  valid_binary Py.prec Py.emax
    (SFmul Py.prec Py.emax x (S754_finite false 8388608000000000 (-23)))
  = true.
Proof.
  destruct x as [sx|sx| |sx mx ex]; try reflexivity.
  intros Hv. simpl in Hv. unfold bounded, canonical_mantissa in Hv.
  apply andb_true_iff in Hv. destruct Hv as [Hc _].
  apply Z.eqb_eq in Hc. rewrite Zdigits2_pos, fexp_binary64 in Hc.
  unfold SFmul. apply binary_round_aux_valid; [lia|].
  rewrite Pos2Z.inj_mul.
  destruct (Zdigits2_bounds (Zpos mx) ltac:(lia)) as [Hd [Hlo _]].
  assert (Hp : 2 ^ (Zdigits2 (Zpos mx) - 1 + 52)
               <= Zpos mx * 8388608000000000).
  { rewrite Z.pow_add_r by lia.
    assert (2 ^ 52 <= 8388608000000000) by (vm_compute; discriminate).
    apply Z.mul_le_mono_nonneg; lia. }
  pose proof (pow2_le_digits (Zpos mx * 8388608000000000)
                (Zdigits2 (Zpos mx) - 1 + 52) ltac:(lia) Hp) as Hdp.
  rewrite fexp_binary64. lia.
Qed.

(** *** Exact shifts *)

Lemma shr_1_double (x : Z) :
  0 <= x ->
  shr_1 (Build_shr_record (2 * x) false false)
  = Build_shr_record x false false.
Proof. destruct x as [|px|px]; try lia; reflexivity. Qed.

Lemma iter_shr_1_exact (p : positive) :
  forall c, 0 <= c ->
    iter_pos shr_1 p (Build_shr_record (c * 2 ^ Zpos p) false false)
    = Build_shr_record c false false.
Proof.
  induction p as [p IH|p IH|]; intros c Hc; cbn [iter_pos].
  - replace (c * 2 ^ Zpos p~1) with (2 * (c * 2 ^ Zpos p * 2 ^ Zpos p)).
    + assert (0 < 2 ^ Zpos p) by (apply Z.pow_pos_nonneg; lia).
      rewrite shr_1_double by nia.
      rewrite IH by nia. now apply IH.
    + replace (Zpos p~1) with (Zpos p + Zpos p + 1) by lia.
      rewrite !Z.pow_add_r by lia. change (2 ^ 1) with 2. ring.
  - replace (c * 2 ^ Zpos p~0) with (c * 2 ^ Zpos p * 2 ^ Zpos p).
    + assert (0 < 2 ^ Zpos p) by (apply Z.pow_pos_nonneg; lia).
      rewrite IH by nia. now apply IH.
    + replace (Zpos p~0) with (Zpos p + Zpos p) by lia.
      rewrite Z.pow_add_r by lia. ring.
  - change (2 ^ 1) with 2. rewrite Z.mul_comm. now apply shr_1_double.
Qed.

Lemma canonical_digits (m : positive) (e : Z) :
  canonical_mantissa Py.prec Py.emax m e = true ->
  Zdigits2 (Zpos m) <= 53 /\ (-1074 < e -> Zdigits2 (Zpos m) = 53).
Proof.
  unfold canonical_mantissa. intros H. apply Z.eqb_eq in H.
  rewrite Zdigits2_pos, fexp_binary64 in H. lia.
Qed.

(** A 53-bit mantissa shifted left comes back from rounding as it is. *)
Lemma binary_round_aux_exact_shift (sx : bool) (m : positive) (e : Z) :
  Zdigits2 (Zpos m) = 53 -> 1 <= e <= 971 ->
  binary_round_aux Py.prec Py.emax sx (Zpos m * 2 ^ e) 0 loc_Exact
  = S754_finite sx m e.
Proof.
  intros Hd He. unfold binary_round_aux, shr_fexp.
  rewrite Zdigits2_mul_pow2, fexp_binary64, Hd by lia.
  replace (Z.max (53 + e + 0 - 53) (-1074) - 0) with e by lia.
  destruct e as [|pe|pe]; try lia.
  unfold shr at 1. cbn [shr_record_of_loc].
  rewrite iter_shr_1_exact by lia.
  cbn [shr_m loc_of_shr_record round_nearest_even].
  rewrite fexp_binary64, Hd.
  replace (Z.max (53 + (0 + Z.pos pe) - 53) (-1074) - (0 + Z.pos pe))
    with 0 by lia.
  cbn [shr shr_record_of_loc shr_m].
  now rewrite (proj2 (Z.leb_le (0 + Z.pos pe) (Py.emax - Py.prec)))
    by (unfold Py.emax, Py.prec; lia).
Qed.

Lemma SFdiv_core_binary_by_one (a : Z) (e : Z) :
  0 < a -> Zdigits2 a = 53 + e -> 1 <= e ->
  SFdiv_core_binary Py.prec Py.emax a 0 1 0 = (a, 0, loc_Exact).
Proof.
  intros Ha Hd He. unfold SFdiv_core_binary.
  rewrite Hd, fexp_binary64. change (Zdigits2 1) with 1.
  replace (Z.min (Z.max (53 + e + 0 - (1 + 0) - 53) (-1074)) (0 - 0))
    with 0 by lia.
  simpl. rewrite div_eucl_div_mod, Z.div_1_r, Z.mod_1_r. reflexivity.
Qed.

(** [int(p / 1)] gives back every [p] that is the [int] of a valid
    binary64. *)
Lemma int_of_truediv_one_of_float (y : spec_float) (p : Z) :
  valid_binary Py.prec Py.emax y = true ->
  Py.int_of_float y = Ok p ->
  Py.int_of_truediv p 1 = Ok p.
Proof.
  destruct y as [s|s| |s m e]; intros Hv Hp; try discriminate Hp.
  - assert (p = 0) by (unfold Py.int_of_float in Hp; congruence).
    subst p. reflexivity.
  - unfold valid_binary, bounded in Hv. apply andb_true_iff in Hv.
    destruct Hv as [Hc He]. apply Z.leb_le in He.
    unfold Py.emax, Py.prec in He.
    destruct (canonical_digits m e Hc) as [Hd53 Hd].
    destruct (Zdigits2_bounds (Zpos m) ltac:(lia)) as [_ [_ Hhi]].
    assert (Hm53 : Zpos m < 2 ^ 53).
    { assert (2 ^ Zdigits2 (Zpos m) <= 2 ^ 53)
        by (apply Z.pow_le_mono_r; lia). lia. }
    assert (Ep : p = cond_Zopp s (if 0 <=? e then Z.pos m * 2 ^ e
                                  else Z.pos m / 2 ^ (- e)))
      by (unfold Py.int_of_float in Hp; congruence).
    rewrite Ep. clear Hp Ep p.
    destruct (Z.le_gt_cases e 0) as [Hle|Hgt].
    + assert (Hsmall : 0 <= (if 0 <=? e then Z.pos m * 2 ^ e
                             else Z.pos m / 2 ^ (- e)) < 2 ^ 53).
      { destruct (Z.leb_spec 0 e).
        - replace e with 0 by lia. simpl (2 ^ 0). lia.
        - assert (0 < 2 ^ (- e)) by (apply Z.pow_pos_nonneg; lia).
          split; [apply Z.div_pos; lia|].
          apply Z.div_lt_upper_bound; [assumption|]. nia. }
      rewrite int_of_truediv_small.
      * now rewrite Z.quot_1_r.
      * destruct s; unfold cond_Zopp; lia.
      * lia.
    + rewrite (proj2 (Z.leb_le 0 e)) by lia.
      specialize (Hd ltac:(lia)).
      assert (H2e : 0 < 2 ^ e) by (apply Z.pow_pos_nonneg; lia).
      pose proof (Zdigits2_mul_pow2 (Zpos m) e ltac:(lia) ltac:(lia))
        as Hdp. rewrite Hd in Hdp.
      pose proof (binary_round_aux_exact_shift s m e Hd ltac:(lia))
        as Hbra.
      pose proof (SFdiv_core_binary_by_one (Zpos m * 2 ^ e) e
                    ltac:(nia) Hdp ltac:(lia)) as Hcore.
      destruct (Zpos m * 2 ^ e) as [|P|P] eqn:EP; try lia.
      unfold Py.int_of_truediv, Py.int_truediv. simpl (1 =? 0).
      assert (Hdiv : SFdiv Py.prec Py.emax
                       (Py.exact (cond_Zopp s (Zpos P))) (Py.exact 1)
                     = S754_finite s m e).
      { destruct s; simpl Py.exact; unfold SFdiv;
          rewrite Hcore; exact Hbra. }
      rewrite Hdiv. cbn [Py.check_overflow rbind Py.int_of_float].
      rewrite (proj2 (Z.leb_le 0 e)) by lia. now rewrite EP.
Qed.

Lemma int_over_one_valid (f : Py.number) (x : spec_float) :
  Py.int_over 1 f = Ok x -> valid_binary Py.prec Py.emax x = true.
Proof.
  destruct f as [z|x0]; unfold Py.int_over.
  - unfold Py.int_truediv. destruct (z =? 0) eqn:Ez; [discriminate|].
    apply Z.eqb_neq in Ez.
    assert (Hv : valid_binary Py.prec Py.emax
                   (SFdiv Py.prec Py.emax (Py.exact 1) (Py.exact z))
                 = true).
    { destruct z as [|pz|pz]; try lia; apply SFdiv_finite_valid. }
    destruct (SFdiv _ _ _ _); simpl; intros H; try discriminate H;
      injection H as <-; exact Hv.
  - change (Py.float_of_int 1) with (Ok Py.f_1_0). rewrite rbind_Ok.
    unfold Py.float_truediv. destruct (Py.is_zero x0); [discriminate|].
    intros H.
    assert (E : x = SFdiv Py.prec Py.emax Py.f_1_0 x0) by congruence.
    rewrite E. apply SFdiv_valid; reflexivity || exact I.
Qed.

End Rounding.

(** * The bucket *)

Section BucketFacts.

Import Bucket.

(** [refill] as one case analysis: the full branch, the division that
    raises, and the update. *)
Lemma refill_unfold (now : Z) (b : Bucket.t) :
  Bucket.refill now b =
  if _current b <? _volume b then
    match Py.int_of_truediv (now - _last_refill_ns b)
            (Rate.period_ns (_refill_rate b)) with
    | Ok n =>
        (Ok tt,
         {| _volume := _volume b; _refill_rate := _refill_rate b;
            _current := Z.min (_current b + n) (_volume b);
            _last_refill_ns :=
              _last_refill_ns b + n * Rate.period_ns (_refill_rate b) |})
    | Raise e => (Raise e, b)
    end
  else (Ok tt, set_last_refill_ns now b).
Proof.
  unfold Bucket.refill, bind, get, put, lift. simpl.
  destruct (_current b <? _volume b); simpl; [|reflexivity].
  destruct (Py.int_of_truediv _ _); reflexivity.
Qed.

Lemma remove_unfold (amount : Z) (b : Bucket.t) :
  Bucket.remove amount b =
  if amount <? 0 then (Raise ValueError, b)
  else (Ok tt, set_current (_current b - amount) b).
Proof.
  unfold Bucket.remove. destruct (amount <? 0); reflexivity.
Qed.

Lemma refill_below_volume (now : Z) (b : Bucket.t) :
  _current b < _volume b ->
  0 < Rate.period_ns (_refill_rate b) ->
  0 <= now - _last_refill_ns b < 2 ^ 53 ->
  Bucket.refill now b =
  (Ok tt,
   {| _volume := _volume b; _refill_rate := _refill_rate b;
      _current :=
        Z.min (_current b
               + (now - _last_refill_ns b) / Rate.period_ns (_refill_rate b))
          (_volume b);
      _last_refill_ns :=
        _last_refill_ns b
        + (now - _last_refill_ns b) / Rate.period_ns (_refill_rate b)
          * Rate.period_ns (_refill_rate b) |}).
Proof.
  intros Hc Hp He. rewrite refill_unfold.
  rewrite (proj2 (Z.ltb_lt _ _) Hc).
  now rewrite int_of_truediv_nonneg by lia.
Qed.

Lemma refill_at_volume (now : Z) (b : Bucket.t) :
  _volume b <= _current b ->
  Bucket.refill now b = (Ok tt, set_last_refill_ns now b).
Proof.
  intros Hc. rewrite refill_unfold.
  now rewrite (proj2 (Z.ltb_ge _ _) Hc).
Qed.

(** [allow] in terms of the refill it starts with. *)
Lemma allow_unfold (now : Z) (rl : RateLimiter.t) :
  RateLimiter.allow now rl =
  match Bucket.refill now (RateLimiter._bucket rl) with
  | (Raise e, b') => (Raise e, {| RateLimiter._bucket := b' |})
  | (Ok _, b') =>
      if _current b' <=? 0
      then (Ok false, {| RateLimiter._bucket := b' |})
      else (Ok true,
            {| RateLimiter._bucket := set_current (_current b' - 1) b' |})
  end.
Proof.
  unfold RateLimiter.allow, bind, RateLimiter.on_bucket, get, ret.
  destruct (Bucket.refill now (RateLimiter._bucket rl)) as [[u|e] b'];
    [|reflexivity].
  simpl. unfold Bucket.is_empty.
  destruct (_current b' <=? 0); reflexivity.
Qed.

End BucketFacts.

(** * Claims *)

(** ** Refill *)

(** C1 (amended): for every bucket whose rate has a positive period,
    whose token count is below its volume and whose elapsed time is
    non-negative and below [2 ^ 53] ns, [refill] sets the count to
    [min (current + elapsed / period_ns) volume] and advances the
    timestamp by [(elapsed / period_ns) * period_ns], whatever the sign of
    the count; for every bucket at or above its volume, [refill] leaves
    the count and sets the timestamp to [now]. *)
Theorem refill_spec (b : Bucket.t) (now : Z) :
  let elapsed := now - Bucket._last_refill_ns b in
  let period := Rate.period_ns (Bucket._refill_rate b) in
  (Bucket._current b < Bucket._volume b ->
   0 < period -> 0 <= elapsed < 2 ^ 53 ->
   Bucket.refill now b =
   (Ok tt,
    {| Bucket._volume := Bucket._volume b;
       Bucket._refill_rate := Bucket._refill_rate b;
       Bucket._current :=
         Z.min (Bucket._current b + elapsed / period) (Bucket._volume b);
       Bucket._last_refill_ns :=
         Bucket._last_refill_ns b + elapsed / period * period |})) /\
  (Bucket._volume b <= Bucket._current b ->
   Bucket.refill now b = (Ok tt, Bucket.set_last_refill_ns now b)).
Proof.
  split.
  - intros Hc Hp He. now apply refill_below_volume.
  - apply refill_at_volume.
Qed.

Lemma refill_spec_witness :
  Bucket.refill 4600
    {| Bucket._volume := 2; Bucket._refill_rate := {| Rate.period_ns := 1000 |};
       Bucket._current := -3; Bucket._last_refill_ns := 100 |}
  = (Ok tt,
     {| Bucket._volume := 2; Bucket._refill_rate := {| Rate.period_ns := 1000 |};
        Bucket._current := 1; Bucket._last_refill_ns := 4100 |}) /\
  Bucket.refill 4600
    {| Bucket._volume := 2; Bucket._refill_rate := {| Rate.period_ns := 1000 |};
       Bucket._current := 2; Bucket._last_refill_ns := 100 |}
  = (Ok tt,
     {| Bucket._volume := 2; Bucket._refill_rate := {| Rate.period_ns := 1000 |};
        Bucket._current := 2; Bucket._last_refill_ns := 4600 |}).
Proof.
  split.
  - apply (proj1 (refill_spec
                    {| Bucket._volume := 2;
                       Bucket._refill_rate := {| Rate.period_ns := 1000 |};
                       Bucket._current := -3;
                       Bucket._last_refill_ns := 100 |} 4600)); simpl; lia.
  - apply (proj2 (refill_spec
                    {| Bucket._volume := 2;
                       Bucket._refill_rate := {| Rate.period_ns := 1000 |};
                       Bucket._current := 2;
                       Bucket._last_refill_ns := 100 |} 4600)); simpl; lia.
Defined.

(** C1 fails as stated: a zero period raises instead of updating, a
    negative period truncates toward zero where the claim floors, and an
    elapsed time of [2 ^ 53 + 1] ns is rounded to [2 ^ 53]. *)
Lemma refill_as_claimed_fails :
  ~ refill_as_claimed
      {| Bucket._volume := 1; Bucket._refill_rate := {| Rate.period_ns := 0 |};
         Bucket._current := 0; Bucket._last_refill_ns := 0 |} 5 /\
  ~ refill_as_claimed
      {| Bucket._volume := 1; Bucket._refill_rate := {| Rate.period_ns := -5 |};
         Bucket._current := 0; Bucket._last_refill_ns := 0 |} 7 /\
  ~ refill_as_claimed
      {| Bucket._volume := 1; Bucket._refill_rate := {| Rate.period_ns := 1 |};
         Bucket._current := 0; Bucket._last_refill_ns := 0 |}
      9007199254740993.
Proof.
  repeat split; intros [H _]; simpl in H;
    specialize (H ltac:(lia) ltac:(lia)); vm_compute in H; discriminate H.
Qed.

(** Sibling facts for C1: a refill with zero elapsed time adds nothing,
    and an overdrawn bucket is replenished by the same formula. *)
Example refill_zero_elapsed :
  Bucket.refill 100
    {| Bucket._volume := 2; Bucket._refill_rate := {| Rate.period_ns := 1000 |};
       Bucket._current := -3; Bucket._last_refill_ns := 100 |}
  = (Ok tt,
     {| Bucket._volume := 2; Bucket._refill_rate := {| Rate.period_ns := 1000 |};
        Bucket._current := -3; Bucket._last_refill_ns := 100 |}).
Proof. reflexivity. Qed.

(** ** Admission *)



(** ** Rates *)

(** C3 (the code departs from it): [Rate(1, 2 ** 53 + 1)] goes through a
    float division and stores [2 ** 53], not [floor((2 ** 53 + 1) / 1)]. *)
Theorem Rate_init_rounds_large_period :
  Rate.__init__ 1 9007199254740993
  = Ok {| Rate.period_ns := 9007199254740992 |} /\
  9007199254740993 / 1 <> 9007199254740992.
Proof. split; [vm_compute; reflexivity | vm_compute; discriminate]. Qed.

(** Below [2 ** 53] the stored period is the floor of the quotient. *)
Lemma Rate_init_small (amount period : Z) :
  1 <= amount -> 0 <= period < 2 ^ 53 ->
  Rate.__init__ amount period = Ok {| Rate.period_ns := period / amount |}.
Proof.
  intros Ha Hp. unfold Rate.__init__, Rate.__post_init__. simpl.
  rewrite (proj2 (Z.ltb_ge _ _) Ha).
  now rewrite int_of_truediv_nonneg by lia.
Qed.

(** "2 per [P]" and "1 per [P / 2]" are the same rate. *)
Lemma Rate_init_halves (P : Z) :
  0 <= P < 2 ^ 53 -> Rate.__init__ 2 P = Rate.__init__ 1 (P / 2).
Proof.
  intros HP.
  assert (0 <= P / 2 < 2 ^ 53).
  { split; [apply Z.div_pos; lia|]. apply Z.div_lt_upper_bound; lia. }
  rewrite !Rate_init_small by lia. now rewrite Z.div_1_r.
Qed.

(** The generated equality compares the normalised periods. *)
Lemma Rate_eqb_eq (r1 r2 : Rate.t) :
  Rate.eqb r1 r2 = true <-> Rate.period_ns r1 = Rate.period_ns r2.
Proof. unfold Rate.eqb. apply Z.eqb_eq. Qed.

Lemma Rate_eqb_iff_eq (r1 r2 : Rate.t) : Rate.eqb r1 r2 = true <-> r1 = r2.
Proof.
  rewrite Rate_eqb_eq. destruct r1, r2; simpl. split; congruence.
Qed.

(** ** Rejected arguments *)

(** C8: [Rate(amount, P)] with [amount < 1] raises [ValueError] (the
    invalid-argument error) and builds nothing; [remove] of a negative
    amount raises [ValueError] and leaves the bucket as it was; [remove] of
    any [amount >= 0] subtracts it from [current], whatever the result. *)
Theorem invalid_arguments_rejected :
  (forall amount period, amount < 1 ->
     Rate.__init__ amount period = Raise ValueError) /\
  (forall amount b, amount < 0 ->
     Bucket.remove amount b = (Raise ValueError, b)) /\
  (forall amount b, 0 <= amount ->
     Bucket.remove amount b
     = (Ok tt, Bucket.set_current (Bucket._current b - amount) b)).
Proof.
  repeat split.
  - intros amount period H. unfold Rate.__init__, Rate.__post_init__.
    now rewrite (proj2 (Z.ltb_lt _ _) H).
  - intros amount b H. rewrite remove_unfold.
    now rewrite (proj2 (Z.ltb_lt _ _) H).
  - intros amount b H. rewrite remove_unfold.
    now rewrite (proj2 (Z.ltb_ge _ _) H).
Qed.

Lemma invalid_arguments_rejected_witness :
  Rate.__init__ 0 _SECOND_AS_NS = Raise ValueError /\
  Bucket.remove (-1) (Bucket.__init__ 5 {| Rate.period_ns := 1000 |} 0)
  = (Raise ValueError, Bucket.__init__ 5 {| Rate.period_ns := 1000 |} 0) /\
  Bucket.remove 10 (Bucket.__init__ 1 {| Rate.period_ns := 1000 |} 0)
  = (Ok tt,
     {| Bucket._volume := 1; Bucket._refill_rate := {| Rate.period_ns := 1000 |};
        Bucket._current := -9; Bucket._last_refill_ns := 0 |}).
Proof.
  destruct invalid_arguments_rejected as (H1 & H2 & H3).
  split; [apply H1; lia|].
  split; [apply H2; lia|].
  apply (H3 10 (Bucket.__init__ 1 {| Rate.period_ns := 1000 |} 0)). lia.
Defined.

(** ** Zero periods *)

(** C10: [Rate(1, 0)] succeeds with [period_ns = 0], and so does
    [from_frequency(2e9)] (as an int or as a float); a bucket with such a
    rate raises [ZeroDivisionError] at every [refill] made while
    [current < volume], and is left as it was. *)
Theorem zero_period_unguarded :
  Rate.__init__ 1 0 = Ok {| Rate.period_ns := 0 |} /\
  Rate.from_frequency (Py.Int 2000000000) = Ok {| Rate.period_ns := 0 |} /\
  Rate.from_frequency (Py.Float Py.f_2e9) = Ok {| Rate.period_ns := 0 |} /\
  (forall b now,
     Rate.period_ns (Bucket._refill_rate b) = 0 ->
     Bucket._current b < Bucket._volume b ->
     Bucket.refill now b = (Raise ZeroDivisionError, b)).
Proof.
  repeat split; try (vm_compute; reflexivity).
  intros b now Hp Hc. rewrite refill_unfold.
  rewrite (proj2 (Z.ltb_lt _ _) Hc), Hp.
  now rewrite int_of_truediv_zero.
Qed.

Lemma zero_period_unguarded_witness :
  Bucket.refill 77
    {| Bucket._volume := 1; Bucket._refill_rate := {| Rate.period_ns := 0 |};
       Bucket._current := 0; Bucket._last_refill_ns := 5 |}
  = (Raise ZeroDivisionError,
     {| Bucket._volume := 1; Bucket._refill_rate := {| Rate.period_ns := 0 |};
        Bucket._current := 0; Bucket._last_refill_ns := 5 |}).
Proof.
  apply (proj2 (proj2 (proj2 zero_period_unguarded))); simpl; lia.
Defined.

(** ** The timestamp *)

Section LastRefill.

Import Bucket Run.

Lemma quot_mul_bounds (a p : Z) :
  0 <= a -> p <> 0 -> 0 <= Z.quot a p * p <= a.
Proof.
  intros Ha Hp.
  pose proof (Z.quot_rem' a p) as D.
  pose proof (Z.rem_nonneg a p Hp Ha) as R.
  split; [|lia].
  destruct (Z.lt_total p 0) as [Hn|[H0|Hpos]]; [|lia|].
  - replace p with (- - p) at 1 by lia.
    rewrite Z.quot_opp_r by lia.
    assert (0 <= Z.quot a (- p)) by (apply Z.quot_pos; lia). nia.
  - assert (0 <= Z.quot a p) by (apply Z.quot_pos; lia). nia.
Qed.

(** The whole periods that a refill credits fall short of the elapsed
    time by less than a period. *)
Lemma quot_mul_near (a p : Z) :
  p <> 0 -> a - Z.abs p < Z.quot a p * p.
Proof.
  intros Hp.
  pose proof (Z.quot_rem' a p) as D.
  pose proof (Z.rem_bound_abs a p Hp) as R.
  lia.
Qed.

Variables (t0 p : Z).

(** One operation on a bucket of period [p] whose timestamp lies
    between the reading of the construction and the latest reading [t],
    less than a period behind the latter. *)
Lemma step_last_refill (o : op) (b : Bucket.t) (t : Z) :
  Rate.period_ns (_refill_rate b) = p ->
  t0 <= _last_refill_ns b <= t ->
  (p <> 0 -> t - Z.abs p < _last_refill_ns b) ->
  clock_steady (t0 + 2 ^ 53) (2 ^ 53 - Z.abs p) t [o] ->
  Rate.period_ns (_refill_rate (step o b)) = p /\
  _last_refill_ns b <= _last_refill_ns (step o b) /\
  match o with
  | Refill now =>
      _last_refill_ns (step o b) <= now /\
      (p <> 0 -> now - Z.abs p < _last_refill_ns (step o b)) /\
      if _current b <? _volume b
      then exists n,
          _last_refill_ns (step o b) = _last_refill_ns b + n * p
      else _last_refill_ns (step o b) = now
  | _ => _last_refill_ns (step o b) = _last_refill_ns b
  end.
Proof.
  intros Hp Hinv Hnear Hclock. destruct o as [amount|now|]; cbn [step].
  - rewrite remove_unfold. destruct (amount <? 0); cbn [snd];
      unfold set_current; fields; (split; [assumption|lia]).
  - cbn [clock_steady] in Hclock. destruct Hclock as (Hnow & Hwithin & _).
    rewrite refill_unfold.
    destruct (_current b <? _volume b); cbn [snd];
      [|unfold set_last_refill_ns; fields;
        split; [assumption|repeat split; lia]].
    destruct (Z.eq_dec p 0) as [Hz|Hnz].
    + rewrite Hp, Hz, int_of_truediv_zero. cbn [snd].
      split; [congruence|]. repeat split; try lia. exists 0. lia.
    + specialize (Hnear Hnz).
      assert (He : 0 <= now - _last_refill_ns b < 2 ^ 53) by lia.
      rewrite Hp, int_of_truediv_small by lia. fields.
      pose proof (quot_mul_bounds (now - _last_refill_ns b) p
                    ltac:(lia) Hnz).
      pose proof (quot_mul_near (now - _last_refill_ns b) p Hnz).
      split; [exact Hp|]. repeat split; try lia.
      eexists. reflexivity.
  - split; [assumption|]. lia.
Qed.

Lemma clock_steady_head (limit gap t : Z) (o : op) (rest : list op) :
  clock_steady limit gap t (o :: rest) ->
  clock_steady limit gap t [o] /\
  clock_steady limit gap (match o with Refill now => now | _ => t end) rest.
Proof. destruct o; simpl; tauto. Qed.

(** After any prefix of the operations the timestamp still lies between
    the reading of the construction and the latest reading, less than a
    period behind the latter. *)
Lemma run_last_refill (pre post : list op) :
  forall b t,
    Rate.period_ns (_refill_rate b) = p ->
    t0 <= _last_refill_ns b <= t ->
    (p <> 0 -> t - Z.abs p < _last_refill_ns b) ->
    clock_steady (t0 + 2 ^ 53) (2 ^ 53 - Z.abs p) t (pre ++ post) ->
    exists t',
      Rate.period_ns (_refill_rate (run pre b)) = p /\
      t0 <= _last_refill_ns (run pre b) <= t' /\
      (p <> 0 -> t' - Z.abs p < _last_refill_ns (run pre b)) /\
      clock_steady (t0 + 2 ^ 53) (2 ^ 53 - Z.abs p) t' post.
Proof.
  induction pre as [|o pre IH]; intros b t Hp Hb Hn H.
  - exists t. auto.
  - change ((o :: pre) ++ post) with (o :: pre ++ post) in H.
    apply clock_steady_head in H. destruct H as [Ho Hrest].
    pose proof (step_last_refill o b t Hp Hb Hn Ho) as (Hp' & Hs1 & Hs2).
    change (run (o :: pre) b) with (run pre (step o b)).
    destruct o as [amount|now|].
    + apply IH with t; auto; lia.
    + destruct Hs2 as (Hs2 & Hs3 & _). cbn [clock_steady] in Ho.
      apply IH with now; auto; lia.
    + apply IH with t; auto; lia.
Qed.

End LastRefill.

(** C5 (amended): over every sequence of bucket operations under a
    monotonic clock, however long it runs, in which each [refill] reading
    is taken within [2 ^ 53] ns of the reading taken at construction or
    less than [2 ^ 53 - |period_ns|] ns after the reading before it, no
    operation decreases the timestamp; [remove] and [is_empty] leave it;
    a [refill] made while [current < volume] advances it by a whole
    multiple of [period_ns], and a [refill] of a full bucket sets it to
    [now], whatever the distance. *)
Theorem last_refill_monotone (volume : Z) (rate : Rate.t) (t0 : Z)
    (pre : list Run.op) (o : Run.op) (post : list Run.op) :
  Run.clock_steady (t0 + 2 ^ 53) (2 ^ 53 - Z.abs (Rate.period_ns rate)) t0
    (pre ++ o :: post) ->
  let b := Run.run pre (Bucket.__init__ volume rate t0) in
  let b' := Run.step o b in
  Bucket._last_refill_ns b <= Bucket._last_refill_ns b' /\
  match o with
  | Run.Refill now =>
      if Bucket._current b <? Bucket._volume b
      then exists n,
          Bucket._last_refill_ns b'
          = Bucket._last_refill_ns b
            + n * Rate.period_ns (Bucket._refill_rate b)
      else Bucket._last_refill_ns b' = now
  | _ => Bucket._last_refill_ns b' = Bucket._last_refill_ns b
  end.
Proof.
  intros H b b'.
  destruct (run_last_refill t0 (Rate.period_ns rate) pre (o :: post)
              (Bucket.__init__ volume rate t0) t0)
    as (t' & Hr & Hb & Hn & Hrest);
    [reflexivity|unfold Bucket.__init__; fields; lia
    |unfold Bucket.__init__; fields; lia|exact H|].
  apply clock_steady_head in Hrest. destruct Hrest as [Ho _].
  pose proof (step_last_refill t0 (Rate.period_ns rate) o
                (Run.run pre (Bucket.__init__ volume rate t0)) t'
                Hr Hb Hn Ho) as (_ & Hs1 & Hs2).
  fold b in Hr, Hs1, Hs2. fold b' in Hs1, Hs2.
  split; [exact Hs1|].
  destruct o; try exact Hs2.
  rewrite Hr. exact (proj2 (proj2 Hs2)).
Qed.

Lemma last_refill_monotone_witness :
  let b := Run.run [Run.Remove 1; Run.Refill 6000000000000000;
                    Run.Remove 1; Run.Refill 12000000000000000;
                    Run.Remove 1]
             (Bucket.__init__ 1 {| Rate.period_ns := 1000 |} 0) in
  let b' := Run.step (Run.Refill 18000000000000500) b in
  Bucket._last_refill_ns b <= Bucket._last_refill_ns b' /\
  if Bucket._current b <? Bucket._volume b
  then exists n,
      Bucket._last_refill_ns b'
      = Bucket._last_refill_ns b + n * Rate.period_ns (Bucket._refill_rate b)
  else Bucket._last_refill_ns b' = 18000000000000500.
Proof.
  apply (last_refill_monotone 1 {| Rate.period_ns := 1000 |} 0
           [Run.Remove 1; Run.Refill 6000000000000000;
            Run.Remove 1; Run.Refill 12000000000000000; Run.Remove 1]
           (Run.Refill 18000000000000500)
           [Run.Refill 18000000000000600; Run.IsEmpty]).
  simpl. lia.
Defined.

(** C5 fails as stated: the refill of a full bucket moves the timestamp
    to [now], here by 5 ns with a period of one second. *)
Lemma refill_full_not_whole_periods :
  let b := Bucket.__init__ 1 {| Rate.period_ns := 1000000000 |} 0 in
  let b' := Run.step (Run.Refill 5) b in
  Bucket._last_refill_ns b' = 5 /\
  ~ exists n,
      Bucket._last_refill_ns b' - Bucket._last_refill_ns b
      = n * Rate.period_ns (Bucket._refill_rate b).
Proof.
  simpl. split; [reflexivity|]. intros [n H]. lia.
Qed.

(** Beyond [2 ^ 53] ns the float quotient can round up, the timestamp
    overtakes the clock, and the next refill of the then full bucket
    brings it back: readings [2 ^ 55 + 6] then [2 ^ 55 + 7], period 2. *)
Example last_refill_can_decrease :
  let b0 := {| Bucket._volume := 1;
               Bucket._refill_rate := {| Rate.period_ns := 2 |};
               Bucket._current := 0; Bucket._last_refill_ns := 0 |} in
  let b1 := Run.step (Run.Refill 36028797018963974) b0 in
  let b2 := Run.step (Run.Refill 36028797018963975) b1 in
  Bucket._last_refill_ns b1 = 36028797018963976 /\
  Bucket._last_refill_ns b2 = 36028797018963975.
Proof. vm_compute. split; reflexivity. Qed.

(** The distance allowed between two readings cannot be made longer by
    more than a few nanoseconds: with a period of 1 ns, a reading
    [2 ^ 53 + 3] ns after the one before credits [2 ^ 53 + 4] periods,
    and a second refill at the same reading takes the timestamp back. *)
Example last_refill_decreases_just_past_bound :
  let b0 := {| Bucket._volume := 1;
               Bucket._refill_rate := {| Rate.period_ns := 1 |};
               Bucket._current := 0; Bucket._last_refill_ns := 0 |} in
  let b1 := Run.step (Run.Refill 9007199254740995) b0 in
  let b2 := Run.step (Run.Refill 9007199254740995) b1 in
  Bucket._last_refill_ns b1 = 9007199254740996 /\
  Bucket._last_refill_ns b2 = 9007199254740995.
Proof. vm_compute. split; reflexivity. Qed.

(** ** The acceptance pattern *)

Section Pattern.

Import Bucket.

Lemma allow_unit_full (period last now : Z) :
  RateLimiter.allow now (unit_limiter period 1 last)
  = (Ok true, unit_limiter period 0 now).
Proof. reflexivity. Qed.

Lemma allow_unit_empty (period last now : Z) :
  0 < period -> 0 <= now - last < 2 ^ 53 ->
  RateLimiter.allow now (unit_limiter period 0 last)
  = if (now - last) / period =? 0
    then (Ok false, unit_limiter period 0 last)
    else (Ok true,
          unit_limiter period 0 (last + (now - last) / period * period)).
Proof.
  intros Hp He. rewrite allow_unfold.
  rewrite refill_below_volume by (simpl; lia). simpl.
  assert (Hn : 0 <= (now - last) / period) by (apply Z.div_pos; lia).
  destruct (Z.eqb_spec ((now - last) / period) 0) as [E|E].
  - rewrite E. simpl. now rewrite Z.add_0_r.
  - rewrite Z.min_r by lia. reflexivity.
Qed.

Lemma init_one_rps (t0 : Z) :
  RateLimiter.__init__ (Py.Float Py.f_1_0) t0
  = Ok (unit_limiter 1000000000 1 t0).
Proof. reflexivity. Qed.

End Pattern.

(** C6 (amended): a limiter built with the default rate of 1 request per
    second, asked five times with exactly 0.5 s of clock time between
    consecutive calls, answers [True, False, True, False, True], whenever
    it was built and first asked. *)
Theorem one_rps_alternates (t0 t1 : Z) :
  five_calls_half_a_second_apart (Py.Float Py.f_1_0) t0 t1
  = Ok [Ok true; Ok false; Ok true; Ok false; Ok true].
Proof.
  unfold five_calls_half_a_second_apart. rewrite init_one_rps.
  unfold rbind, RateLimiter.allows.
  rewrite allow_unit_full.
  rewrite allow_unit_empty by lia.
  replace (t1 + 500000000 - t1) with 500000000 by lia.
  change (500000000 / 1000000000 =? 0) with true. cbv iota.
  rewrite allow_unit_empty by lia.
  replace (t1 + 1000000000 - t1) with 1000000000 by lia.
  change (1000000000 / 1000000000 =? 0) with false. cbv iota.
  change (1000000000 / 1000000000 * 1000000000) with 1000000000.
  rewrite allow_unit_empty by lia.
  replace (t1 + 1500000000 - (t1 + 1000000000)) with 500000000 by lia.
  change (500000000 / 1000000000 =? 0) with true. cbv iota.
  rewrite allow_unit_empty by lia.
  replace (t1 + 2000000000 - (t1 + 1000000000)) with 1000000000 by lia.
  change (1000000000 / 1000000000 =? 0) with false. cbv iota.
  reflexivity.
Qed.

(** C6 fails as stated: at 2 requests per second the period is the 0.5 s
    between the calls, a token is back at every call, and all five are
    accepted. *)
Lemma two_rps_accepts_all :
  five_calls_half_a_second_apart (Py.Float Py.f_2_0) 100 105
  = Ok [Ok true; Ok true; Ok true; Ok true; Ok true] /\
  five_calls_half_a_second_apart (Py.Float Py.f_2_0) 100 105
  <> Ok [Ok true; Ok false; Ok true; Ok false; Ok true].
Proof.
  assert (H : five_calls_half_a_second_apart (Py.Float Py.f_2_0) 100 105
              = Ok [Ok true; Ok true; Ok true; Ok true; Ok true])
    by (vm_compute; reflexivity).
  split; [exact H|]. rewrite H. discriminate.
Qed.

(** ** Frequencies *)

Section Frequencies.

Lemma int_over_one_sign (s : bool) (f : Py.number) :
  signed s f ->
  Py.int_over 1 f = Raise OverflowError \/
  exists x, Py.int_over 1 f = Ok x /\ Py.has_sign s x.
Proof.
  destruct f as [z|x]; unfold signed; simpl; intros [H1 H2].
  - unfold Py.int_truediv. rewrite (proj2 (Z.eqb_neq z 0) H1).
    assert (H : Py.has_sign s
                  (SFdiv Py.prec Py.emax (Py.exact 1) (Py.exact z))).
    { subst s. destruct z as [|pz|pz]; try lia;
        apply (SFdiv_finite_sign false _ 1 pz 0 0). }
    destruct (check_overflow_sign _ _ H) as [E|[E _]]; rewrite E; eauto.
  - change (Py.float_of_int 1) with (Ok Py.f_1_0). simpl.
    unfold Py.float_truediv. rewrite H2. right. eexists.
    split; [reflexivity|].
    apply (SFdiv_by_signed false s); assumption.
Qed.

Lemma float_mul_int_second_sign (s : bool) (x : spec_float) :
  Py.has_sign s x ->
  exists y, Py.float_mul_int x _SECOND_AS_NS = Ok y /\ Py.has_sign s y.
Proof.
  intros H. unfold Py.float_mul_int.
  change (Py.float_of_int _SECOND_AS_NS)
    with (Ok (S754_finite false 8388608000000000 (-23))).
  simpl. eexists. split; [reflexivity|].
  rewrite <- (xorb_false_r s) at 1.
  now apply SFmul_by_finite_sign.
Qed.

Lemma Rate_init_one_sign (p : Z) :
  Rate.__init__ 1 p = Raise OverflowError \/
  exists r, Rate.__init__ 1 p = Ok r /\
            (0 <= p -> 0 <= Rate.period_ns r) /\
            (p <= 0 -> Rate.period_ns r <= 0).
Proof.
  unfold Rate.__init__, Rate.__post_init__. simpl.
  destruct (int_of_truediv_sign p 1 ltac:(lia)) as [E|(v & E & Hv)];
    rewrite E; simpl; [now left|].
  right. eexists. split; [reflexivity|]. exact Hv.
Qed.

(** A frequency that is not zero never makes [from_frequency] raise
    [ValueError] or [ZeroDivisionError], and the period takes its sign. *)
Lemma from_frequency_sign (s : bool) (f : Py.number) :
  signed s f ->
  Rate.from_frequency f = Raise OverflowError \/
  exists r, Rate.from_frequency f = Ok r /\
            if s then Rate.period_ns r <= 0 else 0 <= Rate.period_ns r.
Proof.
  intros Hf. unfold Rate.from_frequency.
  destruct (int_over_one_sign s f Hf) as [E|(x & E & Hx)]; rewrite E;
    [now left|]. rewrite rbind_Ok.
  destruct (float_mul_int_second_sign s x Hx) as (y & E2 & Hy).
  rewrite E2, rbind_Ok.
  destruct (int_of_float_sign s y Hy) as [E3|(p & E3 & Hp)]; rewrite E3;
    [now left|]. rewrite rbind_Ok.
  destruct (Rate_init_one_sign p) as [E4|(r & E4 & Hr1 & Hr2)];
    rewrite E4; [now left|].
  right. exists r. split; [reflexivity|]. destruct s; auto.
Qed.


Lemma positive_signed (f : Py.number) :
  Py.is_positive f = true -> signed false f.
Proof.
  destruct f as [z|x]; unfold signed; simpl.
  - intros H. apply Z.ltb_lt in H. split; [lia|].
    symmetry. apply Z.ltb_ge. lia.
  - destruct x as [[|]|[|]| |[|] m e]; simpl; intros H;
      try discriminate H; auto.
Qed.


Lemma from_frequency_positive (f : Py.number) :
  Py.is_positive f = true ->
  Rate.from_frequency f = Raise OverflowError \/
  exists r, Rate.from_frequency f = Ok r /\ 0 <= Rate.period_ns r.
Proof.
  intros H. exact (from_frequency_sign false f (positive_signed f H)).
Qed.


End Frequencies.




(** The smallest negative float, [-5e-324], has no finite inverse. *)
Example from_frequency_overflows :
  Rate.from_frequency (Py.Float (S754_finite true 1 (-1074)))
  = Raise OverflowError.
Proof. vm_compute. reflexivity. Qed.

(** ** The limiter's token count *)

Section Tokens.

Import Bucket.

Lemma allow_unit_empty_zero_period (last now : Z) :
  RateLimiter.allow now (unit_limiter 0 0 last)
  = (Raise ZeroDivisionError, unit_limiter 0 0 last).
Proof. reflexivity. Qed.

Lemma allows_cons_snd (now : Z) (rest : list Z) (rl : RateLimiter.t) :
  snd (RateLimiter.allows (now :: rest) rl)
  = snd (RateLimiter.allows rest (snd (RateLimiter.allow now rl))).
Proof.
  simpl. destruct (RateLimiter.allow now rl) as [r rl']. simpl.
  now destruct (RateLimiter.allows rest rl').
Qed.

Variables (period t0 : Z).
Hypothesis period_nonneg : 0 <= period.

(** One [allow] keeps the count in [{0, 1}] and the timestamp between
    the reading of the construction and the latest reading, less than a
    period behind the latter. *)
Lemma allow_unit_invariant (c l t now : Z) :
  c = 0 \/ c = 1 -> t0 <= l <= t -> (0 < period -> t - period < l) ->
  t <= now -> now < t0 + 2 ^ 53 \/ now < t + (2 ^ 53 - period) ->
  exists c' l',
    snd (RateLimiter.allow now (unit_limiter period c l))
    = unit_limiter period c' l' /\
    (c' = 0 \/ c' = 1) /\ t0 <= l' <= now /\
    (0 < period -> now - period < l').
Proof.
  intros [Hc|Hc] Hl Hnear Hnow Hwithin; subst c.
  - destruct (Z.eq_dec period 0) as [Hp|Hp].
    + subst period. rewrite allow_unit_empty_zero_period.
      exists 0, l. cbn [snd]. repeat split; auto; lia.
    + specialize (Hnear ltac:(lia)).
      rewrite allow_unit_empty by lia.
      set (n := (now - l) / period).
      assert (Hlo : period * n <= now - l)
        by (apply Z.mul_div_le; lia).
      assert (Hhi : now - l < period * (n + 1)).
      { pose proof (Z.mul_succ_div_gt (now - l) period ltac:(lia)).
        unfold n. lia. }
      assert (Hn : 0 <= n) by (apply Z.div_pos; lia).
      destruct (Z.eqb_spec n 0) as [E|E]; cbn [snd].
      * exists 0, l. rewrite E in Hhi. repeat split; auto; lia.
      * exists 0, (l + n * period).
        assert (period * 0 <= period * n)
          by (apply Z.mul_le_mono_nonneg_l; lia).
        repeat split; auto; lia.
  - rewrite allow_unit_full. exists 0, now. cbn [snd].
    repeat split; auto; lia.
Qed.

Lemma allows_unit_invariant (readings : list Z) :
  forall c l t,
    c = 0 \/ c = 1 -> t0 <= l <= t -> (0 < period -> t - period < l) ->
    Run.readings_steady (t0 + 2 ^ 53) (2 ^ 53 - period) t readings ->
    exists c' l',
      snd (RateLimiter.allows readings (unit_limiter period c l))
      = unit_limiter period c' l' /\ (c' = 0 \/ c' = 1).
Proof.
  induction readings as [|now rest IH]; intros c l t Hc Hl Hn H.
  - exists c, l. auto.
  - cbn [Run.readings_steady] in H. destruct H as (Hnow & Hwithin & Hrest).
    rewrite allows_cons_snd.
    destruct (allow_unit_invariant c l t now Hc Hl Hn Hnow Hwithin)
      as (c1 & l1 & E & Hc1 & Hl1 & Hn1).
    rewrite E. apply IH with now; auto.
Qed.

End Tokens.

(** C9 (amended): for a limiter built from a positive rate, under a
    monotonic clock, however long it runs, in which each [allow()]
    reading is taken within [2 ^ 53] ns of the reading taken at
    construction or less than [2 ^ 53 - period_ns] ns after the reading
    before it, the token count after any sequence of [allow()] calls is
    0 or 1. *)
Theorem tokens_zero_or_one (rps : Py.number) (t0 : Z) (rl : RateLimiter.t)
    (readings : list Z) :
  Py.is_positive rps = true ->
  RateLimiter.__init__ rps t0 = Ok rl ->
  Run.readings_steady (t0 + 2 ^ 53)
    (2 ^ 53
     - Rate.period_ns (Bucket._refill_rate (RateLimiter._bucket rl)))
    t0 readings ->
  let c := Bucket._current
             (RateLimiter._bucket (snd (RateLimiter.allows readings rl))) in
  c = 0 \/ c = 1.
Proof.
  intros Hrps Hinit Hclock. unfold RateLimiter.__init__ in Hinit.
  destruct (from_frequency_positive rps Hrps) as [E|([p] & E & Hp)];
    rewrite E in Hinit; [discriminate|].
  cbn [Rate.period_ns] in Hp. rewrite rbind_Ok in Hinit.
  assert (Hrl : rl = unit_limiter p 1 t0)
    by (unfold unit_limiter, Bucket.__init__ in *; congruence).
  subst rl. unfold unit_limiter in Hclock. fields in Hclock.
  destruct (allows_unit_invariant p t0 Hp readings 1 t0 t0)
    as (c' & l' & E' & Hc'); auto; try lia.
  rewrite E'. exact Hc'.
Qed.

Lemma tokens_zero_or_one_witness :
  let c := Bucket._current
             (RateLimiter._bucket
                (snd (RateLimiter.allows
                        [105; 200; 6000000000000000; 12000000000000000;
                         12000000000000001]
                        (unit_limiter 500000000 1 100)))) in
  c = 0 \/ c = 1.
Proof.
  apply (tokens_zero_or_one (Py.Float Py.f_2_0) 100
           (unit_limiter 500000000 1 100)
           [105; 200; 6000000000000000; 12000000000000000;
            12000000000000001]).
  - reflexivity.
  - reflexivity.
  - simpl. lia.
Defined.

(** C9 fails as stated: a limiter built from [-1.0] has a negative
    period, and two seconds after its first call its bucket holds [-2]. *)
Lemma negative_rps_overdraws :
  tokens_after (Py.Float Py.f_neg_1_0) 100 [105; 2000000105] = Ok (-2).
Proof. vm_compute. reflexivity. Qed.

(** Beyond [2 ^ 53] ns the float quotient can round up: at [1e9]
    requests per second (period 1 ns), a call [2 ^ 55 + 5] ns after the
    one before credits [2 ^ 55 + 8] periods, and the call one nanosecond
    later finds a negative elapsed time. *)
Example long_idle_overdraws :
  tokens_after (Py.Int 1000000000) 0
    [0; 36028797018963973; 36028797018963974] = Ok (-2).
Proof. vm_compute. reflexivity. Qed.

(** The distance allowed between two calls cannot be made longer by
    more than a few nanoseconds: at [1e9] requests per second, a call
    [2 ^ 53 + 3] ns after the one before credits [2 ^ 53 + 4] periods,
    and a call at the same reading finds a negative elapsed time. *)
Example idle_just_past_bound_overdraws :
  tokens_after (Py.Int 1000000000) 0
    [0; 9007199254740995; 9007199254740995] = Ok (-1).
Proof. vm_compute. reflexivity. Qed.

(** ** Frequencies to periods *)

(** C4 (amended): for every frequency [f], [from_frequency(f)] is the
    rate whose [period_ns] is [int((1 / f) * 1_000_000_000)], the double
    product of the double inverse of [f] and [1e9] truncated toward
    zero, not rounded to the nearest integer; it raises exactly when that
    computation raises, with the same exception. *)
Theorem from_frequency_truncates (f : Py.number) :
  Rate.from_frequency f
  = (p <- truncated_period f ;; Ok {| Rate.period_ns := p |})%result.
Proof.
  unfold Rate.from_frequency, truncated_period.
  destruct (Py.int_over 1 f) as [x|e] eqn:E1; [|reflexivity].
  rewrite !rbind_Ok.
  unfold Py.float_mul_int. rewrite float_of_second, !rbind_Ok.
  pose proof (SFmul_second_valid x (int_over_one_valid f x E1)) as Hv.
  unfold Py.float_mul.
  destruct (Py.int_of_float _) as [p|e] eqn:E3; [|reflexivity].
  rewrite !rbind_Ok. unfold Rate.__init__, Rate.__post_init__.
  cbn [Rate.period_ns]. change (1 <? 1) with false. cbv iota.
  now rewrite (int_of_truediv_one_of_float _ p Hv E3).
Qed.

(** C4 fails as stated: for the positive frequency [1.5] the code stores
    [666666666], and [round(1_000_000_000 / 1.5)] is [666666667]. *)
Lemma from_frequency_not_rounded :
  Py.is_positive (Py.Float Py.f_1_5) = true /\
  Rate.from_frequency (Py.Float Py.f_1_5)
  = Ok {| Rate.period_ns := 666666666 |} /\
  from_frequency_rounded (Py.Float Py.f_1_5)
  = Ok {| Rate.period_ns := 666666667 |} /\
  Rate.from_frequency (Py.Float Py.f_1_5)
  <> from_frequency_rounded (Py.Float Py.f_1_5).
Proof.
  assert (H1 : Rate.from_frequency (Py.Float Py.f_1_5)
               = Ok {| Rate.period_ns := 666666666 |})
    by (vm_compute; reflexivity).
  assert (H2 : from_frequency_rounded (Py.Float Py.f_1_5)
               = Ok {| Rate.period_ns := 666666667 |})
    by (vm_compute; reflexivity).
  repeat split; try assumption. rewrite H1, H2. discriminate.
Qed.

(** The two documented frequencies: 1 per second and 0.5 per second. *)
Example from_frequency_documented :
  Rate.from_frequency (Py.Int 1) = Rate.__init__ 1 _SECOND_AS_NS /\
  Rate.from_frequency (Py.Float (S754_finite false 4503599627370496 (-53)))
  = Rate.__init__ 1 (2 * _SECOND_AS_NS).
Proof. split; vm_compute; reflexivity. Qed.

(** * Further properties *)

(** ** The bucket *)

Section BucketBehaviour.

Import Bucket Run.

Lemma step_volume_rate (o : op) (b : Bucket.t) :
  _volume (step o b) = _volume b /\ _refill_rate (step o b) = _refill_rate b.
Proof.
  destruct o as [amount|now|]; simpl; [| |tauto].
  - rewrite remove_unfold. destruct (amount <? 0); simpl; tauto.
  - rewrite refill_unfold. destruct (_current b <? _volume b); simpl;
      [|tauto].
    destruct (Py.int_of_truediv _ _); simpl; tauto.
Qed.

Lemma step_keeps_capacity (o : op) (b : Bucket.t) :
  _current b <= _volume b -> _current (step o b) <= _volume (step o b).
Proof.
  intros H. destruct o as [amount|now|]; simpl; [| |assumption].
  - rewrite remove_unfold. destruct (Z.ltb_spec amount 0); simpl; lia.
  - rewrite refill_unfold. destruct (_current b <? _volume b); simpl;
      [|assumption].
    destruct (Py.int_of_truediv _ _); simpl; lia.
Qed.

Lemma run_keeps_capacity (ops : list op) :
  forall b, _current b <= _volume b ->
            _current (run ops b) <= _volume (run ops b).
Proof.
  induction ops as [|o ops IH]; intros b H; [exact H|].
  change (run (o :: ops) b) with (run ops (step o b)).
  apply IH. now apply step_keeps_capacity.
Qed.

Lemma run_volume_rate (ops : list op) :
  forall b, _volume (run ops b) = _volume b /\
            _refill_rate (run ops b) = _refill_rate b.
Proof.
  induction ops as [|o ops IH]; intros b; [tauto|].
  change (run (o :: ops) b) with (run ops (step o b)).
  destruct (IH (step o b)) as [H1 H2].
  destruct (step_volume_rate o b) as [H3 H4]. split; congruence.
Qed.

End BucketBehaviour.

(** X1: whatever operations are applied to a bucket after its
    construction, in whatever order, with whatever amounts and clock
    readings, and whatever its rate, it never holds more tokens than its
    volume. *)
Theorem bucket_never_over_volume (volume : Z) (rate : Rate.t) (t0 : Z)
    (ops : list Run.op) :
  Bucket._current (Run.run ops (Bucket.__init__ volume rate t0)) <= volume.
Proof.
  pose proof (run_keeps_capacity ops (Bucket.__init__ volume rate t0)) as H.
  destruct (run_volume_rate ops (Bucket.__init__ volume rate t0)) as [Hv _].
  rewrite Hv in H. apply H. simpl. lia.
Qed.

(** X2: a sequence of [remove] calls subtracts the sum of the amounts
    that are not negative and touches nothing else; each negative amount
    raises and is skipped. *)
Theorem removes_subtract (amounts : list Z) (b : Bucket.t) :
  Run.run (map Run.Remove amounts) b
  = Bucket.set_current (Bucket._current b - removed amounts) b.
Proof.
  revert b. induction amounts as [|amount rest IH]; intros b.
  - simpl. destruct b; unfold Bucket.set_current; simpl. f_equal. lia.
  - change (Run.run (map Run.Remove (amount :: rest)) b)
      with (Run.run (map Run.Remove rest) (Run.step (Run.Remove amount) b)).
    rewrite IH. simpl. rewrite remove_unfold.
    destruct (amount <? 0); unfold Bucket.set_current; simpl; f_equal; lia.
Qed.

(** X3: the [repr] of a bucket shows its volume and rate only, so no
    sequence of operations changes it; its [str] shows the token count
    besides, and nothing of the timestamp, so it changes only when the
    count does. *)
Theorem repr_unchanged_by_operations (ops : list Run.op) (b : Bucket.t) :
  Bucket.__repr__ (Run.run ops b) = Bucket.__repr__ b /\
  (Bucket._current (Run.run ops b) = Bucket._current b ->
   Bucket.__str__ (Run.run ops b) = Bucket.__str__ b).
Proof.
  destruct (run_volume_rate ops b) as [Hv Hr]. split.
  - unfold Bucket.__repr__. now rewrite Hv, Hr.
  - intros Hc. unfold Bucket.__str__. now rewrite Hv, Hr, Hc.
Qed.

Section RefillBehaviour.

Import Bucket Run.

(** With a divisor that is not zero, [int(a / b)] can only fail by
    overflow. *)
Lemma int_of_truediv_nonzero (a b : Z) :
  b <> 0 ->
  Py.int_of_truediv a b = Raise OverflowError \/
  exists v, Py.int_of_truediv a b = Ok v.
Proof.
  intros Hb. unfold Py.int_of_truediv, Py.int_truediv.
  rewrite (proj2 (Z.eqb_neq b 0) Hb).
  destruct a as [|pa|pa].
  - right. exists 0. destruct b; try lia; reflexivity.
  - assert (H : exists s, Py.has_sign s
                 (SFdiv Py.prec Py.emax (Py.exact (Zpos pa)) (Py.exact b))).
    { destruct b as [|pb|pb]; try lia; eexists;
        apply SFdiv_finite_sign. }
    destruct H as [s H].
    destruct (check_overflow_sign _ _ H) as [E|[E _]]; rewrite E;
      [now left|]. rewrite rbind_Ok.
    destruct (int_of_float_sign _ _ H) as [E'|(v & E' & _)]; eauto.
  - assert (H : exists s, Py.has_sign s
                 (SFdiv Py.prec Py.emax (Py.exact (Zneg pa)) (Py.exact b))).
    { destruct b as [|pb|pb]; try lia; eexists;
        apply SFdiv_finite_sign. }
    destruct H as [s H].
    destruct (check_overflow_sign _ _ H) as [E|[E _]]; rewrite E;
      [now left|]. rewrite rbind_Ok.
    destruct (int_of_float_sign _ _ H) as [E'|(v & E' & _)]; eauto.
Qed.

End RefillBehaviour.

(** X4: a [refill] that raises has changed nothing.  It raises only
    while the bucket is below its volume: [ZeroDivisionError] exactly when
    the period is zero, otherwise [OverflowError] (a quotient too large
    for a float), and never [ValueError]. *)
Theorem refill_raises_cleanly (b b' : Bucket.t) (now : Z) (e : exn) :
  Bucket.refill now b = (Raise e, b') ->
  b' = b /\ Bucket._current b < Bucket._volume b /\
  (Rate.period_ns (Bucket._refill_rate b) = 0 /\ e = ZeroDivisionError \/
   Rate.period_ns (Bucket._refill_rate b) <> 0 /\ e = OverflowError).
Proof.
  intros H. rewrite refill_unfold in H.
  destruct (Z.ltb_spec (Bucket._current b) (Bucket._volume b)) as [Hc|Hc];
    [|discriminate].
  destruct (Z.eq_dec (Rate.period_ns (Bucket._refill_rate b)) 0) as [Hp|Hp].
  - rewrite Hp, int_of_truediv_zero in H.
    split; [congruence|]. split; [assumption|]. left.
    split; [assumption|congruence].
  - destruct (int_of_truediv_nonzero
                (now - Bucket._last_refill_ns b) _ Hp) as [E|[v E]];
      rewrite E in H; [|discriminate].
    split; [congruence|]. split; [assumption|]. right.
    split; [assumption|congruence].
Qed.

Lemma refill_raises_cleanly_witness :
  {| Bucket._volume := 1; Bucket._refill_rate := {| Rate.period_ns := 0 |};
     Bucket._current := -4; Bucket._last_refill_ns := 5 |}
  = {| Bucket._volume := 1; Bucket._refill_rate := {| Rate.period_ns := 0 |};
       Bucket._current := -4; Bucket._last_refill_ns := 5 |} /\
  -4 < 1 /\
  (0 = 0 /\ ZeroDivisionError = ZeroDivisionError \/
   0 <> 0 /\ ZeroDivisionError = OverflowError).
Proof.
  exact (refill_raises_cleanly
           {| Bucket._volume := 1;
              Bucket._refill_rate := {| Rate.period_ns := 0 |};
              Bucket._current := -4; Bucket._last_refill_ns := 5 |}
           _ 77 ZeroDivisionError eq_refl).
Defined.

(** X5: polling in between loses no token and invents none.  For a
    positive period and readings within [2 ^ 53] ns of the timestamp, the
    token count after [refill] at [t1] and then at [t2] is the count after
    the one [refill] at [t2]; and when the first refill did not fill the
    bucket, the timestamps agree too. *)
Theorem refill_polling_keeps_count (b : Bucket.t) (t1 t2 : Z) :
  0 < Rate.period_ns (Bucket._refill_rate b) ->
  Bucket._last_refill_ns b <= t1 <= t2 ->
  t2 - Bucket._last_refill_ns b < 2 ^ 53 ->
  let b1 := Run.step (Run.Refill t1) b in
  let b12 := Run.step (Run.Refill t2) b1 in
  let b2 := Run.step (Run.Refill t2) b in
  Bucket._current b12 = Bucket._current b2 /\
  (Bucket._current b1 < Bucket._volume b -> b12 = b2).
Proof.
  destruct b as [v [p] c l]. simpl. intros Hp Ht Hlt.
  destruct (Z.lt_ge_cases c v) as [Hc|Hc].
  - rewrite (refill_below_volume t1) by (simpl; lia). simpl.
    rewrite (refill_below_volume t2
               {| Bucket._volume := v;
                  Bucket._refill_rate := {| Rate.period_ns := p |};
                  Bucket._current := c; Bucket._last_refill_ns := l |})
      by (simpl; lia). simpl.
    set (n1 := (t1 - l) / p). set (n := (t2 - l) / p).
    assert (Hn1 : 0 <= n1) by (apply Z.div_pos; lia).
    assert (Hn1p : p * n1 <= t1 - l) by (apply Z.mul_div_le; lia).
    assert (Hmono : n1 <= n) by (apply Z.div_le_mono; lia).
    assert (Hn2 : (t2 - (l + n1 * p)) / p = n - n1).
    { replace (t2 - (l + n1 * p)) with (t2 - l + (- n1) * p) by lia.
      rewrite Z.div_add by lia. unfold n. lia. }
    destruct (Z.lt_ge_cases (c + n1) v) as [Hlow|Hfull].
    + rewrite (Z.min_l (c + n1) v) by lia.
      rewrite refill_below_volume by (simpl; lia). simpl.
      rewrite Hn2.
      replace (c + n1 + (n - n1)) with (c + n) by lia.
      replace (l + n1 * p + (n - n1) * p) with (l + n * p) by lia.
      split; [reflexivity|]. intros _. reflexivity.
    + rewrite (Z.min_r (c + n1) v) by lia.
      rewrite refill_at_volume by (simpl; lia). simpl.
      split; [lia|]. lia.
  - rewrite (refill_at_volume t1) by (simpl; lia). simpl.
    rewrite !refill_at_volume by (simpl; lia). simpl.
    split; [reflexivity|]. lia.
Qed.

Lemma refill_polling_keeps_count_witness :
  let b := {| Bucket._volume := 5;
              Bucket._refill_rate := {| Rate.period_ns := 1000 |};
              Bucket._current := -2; Bucket._last_refill_ns := 100 |} in
  let b1 := Run.step (Run.Refill 2600) b in
  let b12 := Run.step (Run.Refill 4700) b1 in
  let b2 := Run.step (Run.Refill 4700) b in
  Bucket._current b12 = Bucket._current b2 /\
  (Bucket._current b1 < Bucket._volume b -> b12 = b2).
Proof.
  apply (refill_polling_keeps_count
           {| Bucket._volume := 5;
              Bucket._refill_rate := {| Rate.period_ns := 1000 |};
              Bucket._current := -2; Bucket._last_refill_ns := 100 |}
           2600 4700); simpl; lia.
Defined.

(** X6: an overdrawn or empty bucket of volume at least 1 stops being
    empty at a [refill] exactly when [1 - current] whole periods have
    elapsed (positive period, elapsed time below [2 ^ 53] ns). *)
Theorem refill_ends_overdraft (b : Bucket.t) (now : Z) :
  0 < Rate.period_ns (Bucket._refill_rate b) ->
  1 <= Bucket._volume b -> Bucket._current b <= 0 ->
  0 <= now - Bucket._last_refill_ns b < 2 ^ 53 ->
  Bucket.is_empty (Run.step (Run.Refill now) b) = false <->
  (1 - Bucket._current b) * Rate.period_ns (Bucket._refill_rate b)
  <= now - Bucket._last_refill_ns b.
Proof.
  destruct b as [v [p] c l]. fields. intros Hp Hv Hc He.
  rewrite refill_below_volume by (fields; lia).
  unfold Bucket.is_empty. fields.
  set (n := (now - l) / p).
  assert (Hnp : p * n <= now - l) by (apply Z.mul_div_le; lia).
  assert (Hnp' : now - l < p * (n + 1)).
  { pose proof (Z.mul_succ_div_gt (now - l) p Hp). unfold n. lia. }
  rewrite Z.leb_gt. split; intros H.
  - assert (Hk : 1 - c <= n) by lia.
    apply Z.le_trans with (n * p); [|lia].
    apply Z.mul_le_mono_nonneg_r; lia.
  - assert (Hk : 1 - c <= n); [|lia].
    destruct (Z.le_gt_cases (1 - c) n) as [|Hlt]; [assumption|].
    assert (p * (n + 1) <= (1 - c) * p); [|lia].
    rewrite (Z.mul_comm p). apply Z.mul_le_mono_nonneg_r; lia.
Qed.

Lemma refill_ends_overdraft_witness :
  Bucket.is_empty
    (Run.step (Run.Refill 4100)
       {| Bucket._volume := 2;
          Bucket._refill_rate := {| Rate.period_ns := 1000 |};
          Bucket._current := -3; Bucket._last_refill_ns := 100 |}) = false
  <-> (1 - -3) * 1000 <= 4100 - 100.
Proof.
  apply (refill_ends_overdraft
           {| Bucket._volume := 2;
              Bucket._refill_rate := {| Rate.period_ns := 1000 |};
              Bucket._current := -3; Bucket._last_refill_ns := 100 |}
           4100); simpl; lia.
Defined.

(** ** Admission *)

Lemma allows_cons_fst (now : Z) (rest : list Z) (rl : RateLimiter.t) :
  fst (RateLimiter.allows (now :: rest) rl)
  = fst (RateLimiter.allow now rl)
    :: fst (RateLimiter.allows rest (snd (RateLimiter.allow now rl))).
Proof.
  cbn [RateLimiter.allows].
  destruct (RateLimiter.allow now rl) as [r rl']. cbn [fst snd].
  destruct (RateLimiter.allows rest rl'). reflexivity.
Qed.

Lemma last_cons_default {A : Type} (l : list A) :
  forall a d, List.last (a :: l) d = List.last l a.
Proof.
  induction l as [|b l IH]; intros a d; [reflexivity|].
  change (List.last (a :: b :: l) d) with (List.last (b :: l) d).
  rewrite !IH. reflexivity.
Qed.

Lemma readings_ok_app (lim : Z) (before after : list Z) :
  forall t,
    Run.readings_ok t lim (before ++ after) <->
    Run.readings_ok t lim before /\
    Run.readings_ok (List.last before t) lim after.
Proof.
  induction before as [|now rest IH]; intros t.
  - simpl. tauto.
  - rewrite last_cons_default. cbn [app Run.readings_ok].
    rewrite IH. tauto.
Qed.

Lemma init_unit (rps : Py.number) (t0 : Z) (rl : RateLimiter.t) :
  RateLimiter.__init__ rps t0 = Ok rl ->
  rl = unit_limiter
         (Rate.period_ns (Bucket._refill_rate (RateLimiter._bucket rl))) 1 t0.
Proof.
  unfold RateLimiter.__init__.
  destruct (Rate.from_frequency rps) as [[q]|e]; [|discriminate].
  rewrite rbind_Ok. intros H. injection H as <-. reflexivity.
Qed.

Section Admission.

Variables (p t0 : Z).
Hypothesis period_positive : 0 < p.

(** One [allow()] of a limiter of volume 1, under a clock that has not
    gone back: it returns, leaves the bucket empty, and leaves less than
    a period between the timestamp and the reading. *)
Lemma allow_unit_step (c l now : Z) :
  c = 0 \/ c = 1 -> t0 <= l <= now -> now < t0 + 2 ^ 53 ->
  exists r l',
    RateLimiter.allow now (unit_limiter p c l)
    = (Ok r, unit_limiter p 0 l') /\
    t0 <= l' <= now /\ now - l' < p /\
    (r = true -> c = 1 /\ l' = now \/ c = 0 /\ l + p <= l') /\
    (r = false -> c = 0 /\ l' = l) /\
    (c = 1 \/ p <= now - l -> r = true).
Proof.
  intros [->| ->] Hl Hnow.
  - rewrite allow_unit_empty by lia.
    set (n := (now - l) / p).
    assert (Hn : 0 <= n) by (apply Z.div_pos; lia).
    assert (Hlo : p * n <= now - l) by (apply Z.mul_div_le; lia).
    assert (Hhi : now - l < p * (n + 1)).
    { pose proof (Z.mul_succ_div_gt (now - l) p period_positive).
      unfold n. lia. }
    destruct (Z.eqb_spec n 0) as [E|E].
    + exists false, l. rewrite E in Hhi.
      split; [reflexivity|]. split; [lia|]. split; [lia|].
      split; [discriminate|]. split; [intros _; lia|].
      intros [|]; lia.
    + exists true, (l + n * p).
      assert (p * 1 <= p * n) by (apply Z.mul_le_mono_nonneg_l; lia).
      split; [reflexivity|]. split; [lia|]. split; [lia|].
      split; [intros _; right; lia|]. split; [discriminate|].
      reflexivity.
  - rewrite allow_unit_full. exists true, now.
    split; [reflexivity|]. split; [lia|]. split; [lia|].
    split; [intros _; left; lia|]. split; [discriminate|].
    reflexivity.
Qed.

Lemma allows_unit_state (readings : list Z) :
  forall c l t,
    c = 0 \/ c = 1 -> t0 <= l <= t ->
    Run.readings_ok t (t0 + 2 ^ 53) readings ->
    forallb returned (fst (RateLimiter.allows readings (unit_limiter p c l)))
    = true /\
    exists c' l',
      snd (RateLimiter.allows readings (unit_limiter p c l))
      = unit_limiter p c' l' /\
      (c' = 0 \/ c' = 1) /\ t0 <= l' <= List.last readings t.
Proof.
  induction readings as [|now rest IH]; intros c l t Hc Hl Hok.
  - split; [reflexivity|]. exists c, l. auto.
  - cbn [Run.readings_ok] in Hok. destruct Hok as [Hnow Hrest].
    rewrite allows_cons_fst, allows_cons_snd, last_cons_default.
    destruct (allow_unit_step c l now) as (r & l' & E & Hl' & _);
      [assumption|lia|lia|].
    rewrite E. cbn [fst snd forallb returned andb].
    apply IH; auto.
Qed.

(** From an empty bucket, every accepted call costs a whole period of
    the time since the timestamp. *)
Lemma allows_empty_accepted (readings : list Z) :
  forall l t,
    t0 <= l <= t -> Run.readings_ok t (t0 + 2 ^ 53) readings ->
    accepted (fst (RateLimiter.allows readings (unit_limiter p 0 l))) * p
    <= List.last readings t - l.
Proof.
  induction readings as [|now rest IH]; intros l t Hl Hok.
  - simpl. lia.
  - cbn [Run.readings_ok] in Hok. destruct Hok as [Hnow Hrest].
    rewrite allows_cons_fst, last_cons_default.
    destruct (allow_unit_step 0 l now)
      as (r & l' & E & Hl' & _ & Ht & Hf & _); [auto|lia|lia|].
    rewrite E. cbn [fst snd].
    specialize (IH l' now Hl' Hrest).
    destruct r; cbn [accepted].
    + destruct (Ht eq_refl) as [[? _]|[_ Hadv]]; lia.
    + destruct (Hf eq_refl) as [_ ->]. exact IH.
Qed.

(** Over any stretch of calls, all but two of the accepted ones cost a
    whole period of the stretch. *)
Lemma allows_window (c l t t1 : Z) (rest : list Z) :
  c = 0 \/ c = 1 -> t0 <= l <= t ->
  Run.readings_ok t (t0 + 2 ^ 53) (t1 :: rest) ->
  (accepted (fst (RateLimiter.allows (t1 :: rest) (unit_limiter p c l))) - 2)
  * p < List.last rest t1 - t1.
Proof.
  intros Hc Hl Hok.
  cbn [Run.readings_ok] in Hok. destruct Hok as [Hnow Hrest].
  rewrite allows_cons_fst.
  destruct (allow_unit_step c l t1)
    as (r & l' & E & Hl' & Hfrac & _); [assumption|lia|lia|].
  rewrite E. cbn [fst snd].
  pose proof (allows_empty_accepted rest l' t1 Hl' Hrest) as Hacc.
  destruct r; cbn [accepted]; lia.
Qed.

End Admission.

(** X7: a new limiter accepts its first [allow()] whatever the rate
    and whatever the clock reads, and is left empty with the reading as
    its timestamp. *)
Theorem first_allow_accepted (rps : Py.number) (t0 now : Z)
    (rl : RateLimiter.t) :
  RateLimiter.__init__ rps t0 = Ok rl ->
  RateLimiter.allow now rl
  = (Ok true,
     {| RateLimiter._bucket :=
          Bucket.set_last_refill_ns now
            (Bucket.set_current 0 (RateLimiter._bucket rl)) |}).
Proof.
  intros H. rewrite (init_unit _ _ _ H) at 1 2.
  apply allow_unit_full.
Qed.

Lemma first_allow_accepted_witness :
  RateLimiter.allow 7 (unit_limiter (-1000000000) 1 100)
  = (Ok true,
     {| RateLimiter._bucket :=
          Bucket.set_last_refill_ns 7
            (Bucket.set_current 0
               (RateLimiter._bucket (unit_limiter (-1000000000) 1 100))) |}).
Proof.
  apply (first_allow_accepted (Py.Float Py.f_neg_1_0) 100 7). reflexivity.
Defined.

(** X8: a limiter whose period is positive never raises from
    [allow()] under a monotonic clock whose readings stay within
    [2 ^ 53] ns of the reading taken at construction. *)
Theorem allows_never_raise (rps : Py.number) (t0 : Z) (rl : RateLimiter.t)
    (readings : list Z) :
  RateLimiter.__init__ rps t0 = Ok rl ->
  0 < Rate.period_ns (Bucket._refill_rate (RateLimiter._bucket rl)) ->
  Run.readings_ok t0 (t0 + 2 ^ 53) readings ->
  forallb returned (fst (RateLimiter.allows readings rl)) = true.
Proof.
  intros Hinit Hp Hok. rewrite (init_unit _ _ _ Hinit).
  apply (allows_unit_state _ t0 Hp readings 1 t0 t0); auto; lia.
Qed.

Lemma allows_never_raise_witness :
  forallb returned
    (fst (RateLimiter.allows [105; 200; 500000300]
            (unit_limiter 500000000 1 100))) = true.
Proof.
  apply (allows_never_raise (Py.Float Py.f_2_0) 100
           (unit_limiter 500000000 1 100) [105; 200; 500000300]).
  - reflexivity.
  - simpl. lia.
  - simpl. lia.
Defined.

(** X9: the rate is never exceeded from the start.  For a limiter with
    a positive period, under a monotonic clock within [2 ^ 53] ns of the
    first call, every accepted call after the first costs a whole period
    of the time between the first call and the last. *)
Theorem accepted_calls_bounded (rps : Py.number) (t0 t1 : Z)
    (rl : RateLimiter.t) (rest : list Z) :
  RateLimiter.__init__ rps t0 = Ok rl ->
  0 < Rate.period_ns (Bucket._refill_rate (RateLimiter._bucket rl)) ->
  Run.readings_ok t1 (t1 + 2 ^ 53) rest ->
  (accepted (fst (RateLimiter.allows (t1 :: rest) rl)) - 1)
  * Rate.period_ns (Bucket._refill_rate (RateLimiter._bucket rl))
  <= List.last rest t1 - t1.
Proof.
  intros Hinit Hp Hok. rewrite (init_unit _ _ _ Hinit) at 1.
  set (p := Rate.period_ns _) in *.
  rewrite allows_cons_fst, allow_unit_full. cbn [fst snd accepted].
  pose proof (allows_empty_accepted p t1 Hp rest t1 t1) as Hacc.
  lapply Hacc; [clear Hacc; intros Hacc|lia].
  specialize (Hacc Hok). lia.
Qed.

Lemma accepted_calls_bounded_witness :
  (accepted
     (fst (RateLimiter.allows [105; 200; 500000300; 1000000104; 1000000105]
             (unit_limiter 500000000 1 100))) - 1)
  * Rate.period_ns
      (Bucket._refill_rate
         (RateLimiter._bucket (unit_limiter 500000000 1 100)))
  <= List.last [200; 500000300; 1000000104; 1000000105] 105 - 105.
Proof.
  apply (accepted_calls_bounded (Py.Float Py.f_2_0) 100 105
           (unit_limiter 500000000 1 100)
           [200; 500000300; 1000000104; 1000000105]).
  - reflexivity.
  - simpl. lia.
  - simpl. lia.
Defined.

(** X10: over any stretch of the calls made to a limiter with a positive
    period, all but two of the accepted calls cost a whole period of the
    stretch: the time kept by the timestamp lets one call more through
    than the rate alone would. *)
Theorem accepted_in_window_bounded (rps : Py.number) (t0 t1 : Z)
    (rl : RateLimiter.t) (before rest : list Z) :
  RateLimiter.__init__ rps t0 = Ok rl ->
  0 < Rate.period_ns (Bucket._refill_rate (RateLimiter._bucket rl)) ->
  Run.readings_ok t0 (t0 + 2 ^ 53) (before ++ t1 :: rest) ->
  (accepted
     (fst (RateLimiter.allows (t1 :: rest)
             (snd (RateLimiter.allows before rl)))) - 2)
  * Rate.period_ns (Bucket._refill_rate (RateLimiter._bucket rl))
  < List.last rest t1 - t1.
Proof.
  intros Hinit Hp Hok. rewrite (init_unit _ _ _ Hinit) at 1.
  set (p := Rate.period_ns _) in *.
  apply readings_ok_app in Hok. destruct Hok as [Hbefore Hwindow].
  destruct (allows_unit_state p t0 Hp before 1 t0 t0)
    as (_ & c & l & E & Hc & Hl); auto; try lia.
  rewrite E.
  apply (allows_window p t0 Hp c l (List.last before t0)); assumption.
Qed.

Lemma accepted_in_window_bounded_witness :
  (accepted
     (fst (RateLimiter.allows [29; 30]
             (snd (RateLimiter.allows [10]
                     (unit_limiter 10 1 0))))) - 2)
  * Rate.period_ns
      (Bucket._refill_rate (RateLimiter._bucket (unit_limiter 10 1 0)))
  < List.last [30] 29 - 29.
Proof.
  apply (accepted_in_window_bounded (Py.Int 100000000) 0 29
           (unit_limiter 10 1 0) [10] [30]).
  - reflexivity.
  - simpl. lia.
  - simpl. lia.
Defined.

(** X11: a call made a period or more after the call before it is
    accepted (positive period, monotonic clock within [2 ^ 53] ns of the
    reading taken at construction). *)
Theorem allow_after_a_period_accepted (rps : Py.number) (t0 now : Z)
    (rl : RateLimiter.t) (before : list Z) :
  RateLimiter.__init__ rps t0 = Ok rl ->
  0 < Rate.period_ns (Bucket._refill_rate (RateLimiter._bucket rl)) ->
  Run.readings_ok t0 (t0 + 2 ^ 53) (before ++ [now]) ->
  List.last before t0
  + Rate.period_ns (Bucket._refill_rate (RateLimiter._bucket rl)) <= now ->
  fst (RateLimiter.allow now (snd (RateLimiter.allows before rl))) = Ok true.
Proof.
  intros Hinit Hp Hok Hlate. rewrite (init_unit _ _ _ Hinit).
  set (p := Rate.period_ns _) in *.
  apply readings_ok_app in Hok. destruct Hok as [Hbefore Hnow].
  cbn [Run.readings_ok] in Hnow. destruct Hnow as [Hnow _].
  destruct (allows_unit_state p t0 Hp before 1 t0 t0)
    as (_ & c & l & E & Hc & Hl); auto; try lia.
  rewrite E.
  destruct (allow_unit_step p t0 Hp c l now)
    as (r & l' & E' & _ & _ & _ & _ & Hlive); [assumption|lia|lia|].
  rewrite E'. cbn [fst]. rewrite Hlive; [reflexivity|]. right. lia.
Qed.

Lemma allow_after_a_period_accepted_witness :
  fst (RateLimiter.allow 700000000
         (snd (RateLimiter.allows [105; 200]
                 (unit_limiter 500000000 1 100)))) = Ok true.
Proof.
  apply (allow_after_a_period_accepted (Py.Float Py.f_2_0) 100 700000000
           (unit_limiter 500000000 1 100) [105; 200]).
  - reflexivity.
  - simpl. lia.
  - simpl. lia.
  - simpl. lia.
Defined.

(** ** Rates *)

(** X12: while the period is below [2 ^ 53] in absolute value, the
    float division of [Rate(amount, period_ns)] loses nothing: the stored
    period is the integer quotient, truncated toward zero. *)
Theorem Rate_init_exact (amount period : Z) :
  1 <= amount -> Z.abs period < 2 ^ 53 ->
  Rate.__init__ amount period
  = Ok {| Rate.period_ns := Z.quot period amount |}.
Proof.
  intros Ha Hp. unfold Rate.__init__, Rate.__post_init__.
  cbn [Rate.period_ns].
  rewrite (proj2 (Z.ltb_ge amount 1) Ha).
  rewrite int_of_truediv_small by lia. reflexivity.
Qed.

Lemma Rate_init_exact_witness :
  Rate.__init__ 3 (-10) = Ok {| Rate.period_ns := Z.quot (-10) 3 |}.
Proof.
  apply (Rate_init_exact 3 (-10)); [lia|]. vm_compute. reflexivity.
Defined.

(** X13: the same rate written with a common factor in the amount and
    the period is the same [Rate], while the larger period is below
    [2 ^ 53] in absolute value. *)
Theorem Rate_init_scale (k amount period : Z) :
  1 <= k -> 1 <= amount -> Z.abs (k * period) < 2 ^ 53 ->
  Rate.__init__ (k * amount) (k * period) = Rate.__init__ amount period.
Proof.
  intros Hk Ha Hp.
  assert (Z.abs period <= Z.abs (k * period)).
  { rewrite Z.abs_mul, (Z.abs_eq k) by lia.
    pose proof (Z.abs_nonneg period).
    replace (Z.abs period) with (1 * Z.abs period) at 1 by lia.
    apply Z.mul_le_mono_nonneg_r; lia. }
  assert (1 * 1 <= k * amount) by (apply Z.mul_le_mono_nonneg; lia).
  unfold Rate.__init__, Rate.__post_init__. cbn [Rate.period_ns].
  rewrite (proj2 (Z.ltb_ge amount 1) Ha).
  rewrite (proj2 (Z.ltb_ge (k * amount) 1)) by lia.
  rewrite !int_of_truediv_small by lia.
  rewrite Z.quot_mul_cancel_l by lia. reflexivity.
Qed.

Lemma Rate_init_scale_witness :
  Rate.__init__ (7 * 3) (7 * 2000000000) = Rate.__init__ 3 2000000000.
Proof.
  apply (Rate_init_scale 7 3 2000000000); [lia|lia|].
  vm_compute. reflexivity.
Defined.

(** X14: normalising is idempotent.  Whatever [Rate(amount, period_ns)]
    stores, of any size, [Rate(1, .)] of the stored period is the same
    [Rate]: a period that came out of one float division goes through
    the next unchanged. *)
Theorem Rate_init_idempotent (amount period : Z) (r : Rate.t) :
  Rate.__init__ amount period = Ok r ->
  Rate.__init__ 1 (Rate.period_ns r) = Ok r.
Proof.
  unfold Rate.__init__, Rate.__post_init__. cbn [Rate.period_ns].
  destruct (Z.ltb_spec amount 1) as [Ha|Ha]; [discriminate|].
  change (1 <? 1) with false. cbv iota.
  destruct (Py.int_of_truediv period amount) as [q|e] eqn:E;
    [|discriminate].
  rewrite rbind_Ok. intros H. injection H as <-. cbn [Rate.period_ns].
  assert (Hq : Py.int_of_truediv q 1 = Ok q); [|now rewrite Hq].
  unfold Py.int_of_truediv, Py.int_truediv in E.
  rewrite (proj2 (Z.eqb_neq amount 0)) in E by lia.
  destruct amount as [|pa|pa]; try lia.
  destruct period as [|pp|pp].
  - injection E as <-. reflexivity.
  - unfold Py.exact in E.
    pose proof (SFdiv_finite_valid false false pp pa 0 0) as Hv.
    destruct (SFdiv Py.prec Py.emax _ _) as [sy|sy| |sy my ey] eqn:Ey;
      try discriminate E.
    + injection E as <-. reflexivity.
    + rewrite <- Ey in Hv.
      apply (int_of_truediv_one_of_float _ q Hv). rewrite Ey. exact E.
  - unfold Py.exact in E.
    pose proof (SFdiv_finite_valid true false pp pa 0 0) as Hv.
    destruct (SFdiv Py.prec Py.emax _ _) as [sy|sy| |sy my ey] eqn:Ey;
      try discriminate E.
    + injection E as <-. reflexivity.
    + rewrite <- Ey in Hv.
      apply (int_of_truediv_one_of_float _ q Hv). rewrite Ey. exact E.
Qed.

Lemma Rate_init_idempotent_witness :
  Rate.__init__ 1 (Rate.period_ns {| Rate.period_ns := 9007199254740992 |})
  = Ok {| Rate.period_ns := 9007199254740992 |}.
Proof.
  apply (Rate_init_idempotent 1 9007199254740993). reflexivity.
Defined.

(** X15: [period_sec] of a period below [2 ^ 53] ns in absolute value
    is a double whose whole part is the whole number of seconds in the
    period. *)
Theorem period_sec_whole_seconds (r : Rate.t) :
  Z.abs (Rate.period_ns r) < 2 ^ 53 ->
  exists x,
    Rate.period_sec r = Ok x /\
    valid_binary Py.prec Py.emax x = true /\
    Py.int_of_float x = Ok (Z.quot (Rate.period_ns r) _SECOND_AS_NS).
Proof.
  destruct r as [p]. cbn [Rate.period_ns]. intros Hp.
  pose proof (int_of_truediv_small p _SECOND_AS_NS Hp
                ltac:(unfold _SECOND_AS_NS; lia)) as H.
  unfold Rate.period_sec. cbn [Rate.period_ns].
  unfold Py.int_of_truediv in H.
  destruct (Py.int_truediv p _SECOND_AS_NS) as [x|e] eqn:E;
    [|discriminate].
  rewrite rbind_Ok in H. exists x. split; [reflexivity|].
  split; [|exact H].
  unfold Py.int_truediv in E. change (_SECOND_AS_NS =? 0) with false in E.
  cbv iota in E.
  assert (Hv : valid_binary Py.prec Py.emax
                 (SFdiv Py.prec Py.emax (Py.exact p)
                    (Py.exact _SECOND_AS_NS)) = true).
  { destruct p as [|pp|pp]; [reflexivity| |];
      apply SFdiv_finite_valid. }
  destruct (SFdiv Py.prec Py.emax _ _); try discriminate E;
    injection E as <-; exact Hv.
Qed.

Lemma period_sec_whole_seconds_witness :
  exists x,
    Rate.period_sec {| Rate.period_ns := 2500000000 |} = Ok x /\
    valid_binary Py.prec Py.emax x = true /\
    Py.int_of_float x
    = Ok (Z.quot (Rate.period_ns {| Rate.period_ns := 2500000000 |})
            _SECOND_AS_NS).
Proof.
  apply (period_sec_whole_seconds {| Rate.period_ns := 2500000000 |}).
  vm_compute. reflexivity.
Defined.

(** ** Integer frequencies *)

Section Enclosure.

(** Rounding a mantissa of at least 53 bits to binary64, away from the
    subnormal range and from overflow, moves it by less than one part in
    [2 ^ 52]. *)
Lemma binary_round_aux_close (sx : bool) (mx ex : Z) (lx : location) :
  2 ^ 52 <= mx ->
  -1074 <= Zdigits2 mx + ex - 53 ->
  Zdigits2 mx + ex <= 1023 ->
  exists mf ef,
    binary_round_aux Py.prec Py.emax sx mx ex lx = S754_finite sx mf ef /\
    2 ^ 52 <= Zpos mf < 2 ^ 53 /\
    ex <= ef <= ex + Zdigits2 mx - 52 /\
    mx * (2 ^ 52 - 1) <= Zpos mf * 2 ^ (ef - ex) * 2 ^ 52
    <= mx * (2 ^ 52 + 1).
Proof.
  intros Hmx Hlo Hhi.
  pose proof (pow2_le_digits mx 52 ltac:(lia) Hmx) as Hd53.
  destruct (Zdigits2_bounds mx ltac:(lia)) as [_ [Hdlo Hdhi]].
  unfold binary_round_aux, shr_fexp.
  set (n1 := fexp Py.prec Py.emax (Zdigits2 mx + ex) - ex).
  set (k := Zdigits2 mx - 53).
  assert (Hn1 : n1 = k) by (unfold n1, k; rewrite fexp_binary64; lia).
  assert (Hk : 0 <= k) by (unfold k; lia).
  pose proof (shr_spec (shr_record_of_loc mx lx) ex n1) as S1.
  rewrite shr_m_of_loc in S1. specialize (S1 ltac:(lia)).
  destruct (shr (shr_record_of_loc mx lx) ex n1) as [mrs' e'].
  simpl fst in S1; simpl snd in S1. destruct S1 as (S1m & S1e & _).
  rewrite Hn1, Z.max_l in S1m, S1e by lia.
  set (m := shr_m mrs') in *.
  set (P := 2 ^ k) in *.
  assert (HP : 0 < P) by (apply Z.pow_pos_nonneg; lia).
  assert (HPc : P * 2 ^ 52 <= mx).
  { unfold P. rewrite <- Z.pow_add_r by lia.
    replace (k + 52) with (Zdigits2 mx - 1) by (unfold k; lia).
    exact Hdlo. }
  assert (HPle : P <= mx) by lia.
  assert (Hmd : Zdigits2 m = 53).
  { rewrite S1m. unfold P. rewrite Zdigits2_div_pow2 by (fold P; lia).
    unfold k. lia. }
  assert (Hmlo : P * m <= mx) by (rewrite S1m; apply Z.mul_div_le; lia).
  assert (Hmhi : mx < P * (m + 1)).
  { pose proof (Z.mul_succ_div_gt mx P HP). rewrite S1m. lia. }
  assert (Hm0 : 0 < m).
  { rewrite S1m. apply Z.div_str_pos. lia. }
  destruct (Zdigits2_bounds m Hm0) as [_ [Hm52 Hm53]].
  rewrite Hmd in Hm52, Hm53. change (53 - 1) with 52 in Hm52.
  set (m1 := round_nearest_even m (loc_of_shr_record mrs')).
  assert (Hm1 : m1 = m \/ m1 = m + 1).
  { destruct (round_nearest_even_cases m (loc_of_shr_record mrs'))
      as [H|[H _]]; fold m1 in H; auto. }
  set (A := P * m) in *.
  assert (Hclose : mx * (2 ^ 52 - 1) <= P * m1 * 2 ^ 52
                   <= mx * (2 ^ 52 + 1)).
  { destruct Hm1 as [->| ->].
    - fold A. lia.
    - replace (P * (m + 1)) with (A + P) in * by (unfold A; ring). lia. }
  assert (Hcase : (m1 < 2 ^ 53 /\ Zdigits2 m1 = 53) \/
                  (m1 = 2 ^ 53 /\ Zdigits2 m1 = 54)).
  { destruct (Z.lt_ge_cases m1 (2 ^ 53)) as [Hlt|Hge].
    - left. split; [assumption|]. apply Zdigits2_unique; [lia|].
      change (53 - 1) with 52. lia.
    - right. assert (E : m1 = 2 ^ 53) by lia. split; [assumption|].
      rewrite E. reflexivity. }
  set (n2 := fexp Py.prec Py.emax (Zdigits2 m1 + e') - e').
  assert (Hn2 : n2 = Zdigits2 m1 - 53).
  { unfold n2. rewrite fexp_binary64. unfold k in S1e. lia. }
  pose proof (shr_spec (shr_record_of_loc m1 loc_Exact) e' n2) as S2.
  rewrite shr_m_of_loc in S2. specialize (S2 ltac:(lia)).
  destruct (shr (shr_record_of_loc m1 loc_Exact) e' n2) as [mrs'' e''].
  simpl fst in S2; simpl snd in S2. destruct S2 as (S2m & S2e & _).
  rewrite Hn2 in S2m, S2e.
  destruct Hcase as [[Hlt Hd1]|[Heq Hd1]]; rewrite Hd1 in S2m, S2e.
  - change (Z.max (53 - 53) 0) with 0 in S2m, S2e.
    rewrite Z.pow_0_r, Z.div_1_r in S2m.
    destruct (shr_m mrs'') as [|pf|pf] eqn:Emf; try lia.
    rewrite (proj2 (Z.leb_le e'' (Py.emax - Py.prec)))
      by (unfold Py.emax, Py.prec, k in *; lia).
    exists pf, e''. split; [reflexivity|].
    split; [lia|]. split; [unfold k in S1e; lia|].
    replace (e'' - ex) with k by lia. fold P.
    rewrite S2m. rewrite (Z.mul_comm m1 P). exact Hclose.
  - change (Z.max (54 - 53) 0) with 1 in S2m, S2e.
    rewrite Heq in S2m. change (2 ^ 53 / 2 ^ 1) with (2 ^ 52) in S2m.
    destruct (shr_m mrs'') as [|pf|pf] eqn:Emf; try discriminate S2m.
    rewrite (proj2 (Z.leb_le e'' (Py.emax - Py.prec)))
      by (unfold Py.emax, Py.prec, k in *; lia).
    exists pf, e''. split; [reflexivity|].
    split; [rewrite S2m; lia|]. split; [unfold k in S1e; lia|].
    replace (e'' - ex) with (k + 1) by lia.
    rewrite Z.pow_add_r by lia. fold P. rewrite S2m.
    rewrite Heq in Hclose. change (2 ^ 1) with 2.
    change (2 ^ 53) with (2 ^ 52 * 2) in Hclose.
    replace (2 ^ 52 * (P * 2)) with (P * (2 ^ 52 * 2)) by ring.
    exact Hclose.
Qed.

End Enclosure.

Lemma all_from_spec (P : Z -> bool) (n : nat) :
  forall d, all_from P n d = true ->
    forall k, d <= k < d + Z.of_nat n -> P k = true.
Proof.
  induction n as [|n IH]; intros d H k Hk; [lia|].
  cbn [all_from] in H. apply andb_true_iff in H. destruct H as [Hd Hrest].
  destruct (Z.eq_dec k d) as [->|Hne]; [assumption|].
  apply (IH (d + 1) Hrest). lia.
Qed.

Lemma divisor_pairs_checked :
  all_from divisor_pair_ok (Z.to_nat 31622) 1 = true.
Proof. vm_compute. reflexivity. Qed.

Section IntegerFrequency.

Ltac nonneg := repeat apply Z.mul_nonneg_nonneg; lia.

(** [(1 / z) * 1e9] for an int [z]: the double it comes to, scaled by
    [2 ^ T] to an integer, is within three parts in [2 ^ 52] of
    [1e9 / z]. *)
Lemma inverse_scaled (z : Z) :
  1 <= z <= 2 ^ 1022 ->
  exists m2 e2 T,
    (x <- Py.int_over 1 (Py.Int z) ;;
     Py.float_mul_int x _SECOND_AS_NS)%result
    = Ok (S754_finite false m2 e2) /\
    0 <= T /\ 0 <= T + e2 /\
    Zpos m2 * 2 ^ (T + e2) * z * 2 ^ 104
    <= 2 ^ T * (1000000000 * (2 ^ 52 + 1) ^ 2) /\
    2 ^ T * (1000000000 * (2 ^ 52 - 1) ^ 3)
    <= Zpos m2 * 2 ^ (T + e2) * z * 2 ^ 156.
Proof.
  intros Hz.
  unfold Py.int_over, Py.int_truediv.
  rewrite (proj2 (Z.eqb_neq z 0)) by lia.
  destruct z as [|pz|pz]; try lia.
  cbn [Py.exact]. unfold SFdiv.
  destruct (SFdiv_core_binary_small 1 (Zpos pz) ltac:(lia) ltac:(lia))
    as (s & Hcore & Hs & Hn).
  rewrite Hcore. clear Hcore. rewrite Z.mul_1_l in *.
  set (z := Zpos pz) in *.
  set (S := 2 ^ s) in *.
  assert (HS : 0 < S) by (apply Z.pow_pos_nonneg; lia).
  set (q := S / z) in *.
  assert (Hq52 : 2 ^ 52 <= q).
  { destruct Hn as [Hn|Hn]; [assumption|].
    apply Z.div_le_lower_bound; [lia|].
    unfold S. rewrite Hn. change 1074 with (1022 + 52).
    rewrite Z.pow_add_r by lia.
    apply Z.mul_le_mono_nonneg_r; lia. }
  assert (Hq1 : z * q <= S) by (apply Z.mul_div_le; lia).
  assert (Hq2 : S < z * (q + 1)).
  { pose proof (Z.mul_succ_div_gt S z ltac:(lia)). fold q in H. lia. }
  pose proof (pow2_le_digits q 52 ltac:(lia) Hq52) as Hdq.
  assert (Hdq' : Zdigits2 q <= s + 1).
  { apply digits_le_of_lt_pow2; [|lia].
    rewrite Z.pow_add_r by lia. fold S.
    assert (1 * q <= z * q) by (apply Z.mul_le_mono_nonneg_r; lia).
    lia. }
  destruct (binary_round_aux_close (xorb false false) q (- s)
              (new_location z (S mod z)) Hq52 ltac:(lia) ltac:(lia))
    as (m1 & e1 & Ex1 & Hm1 & He1 & H1).
  rewrite Ex1. cbn [xorb Py.check_overflow]. rewrite rbind_Ok.
  unfold Py.float_mul_int. rewrite float_of_second, rbind_Ok.
  unfold Py.float_mul, SFmul.
  rewrite Pos2Z.inj_mul.
  set (K := 8388608000000000).
  set (M := Zpos m1 * K).
  assert (HMlo : 2 ^ 104 <= M).
  { change (2 ^ 104) with (2 ^ 52 * 2 ^ 52). unfold M.
    apply Z.mul_le_mono_nonneg; unfold K; lia. }
  assert (HMhi : M < 2 ^ 106).
  { change (2 ^ 106) with (2 ^ 53 * 2 ^ 53). unfold M.
    apply Z.mul_lt_mono_nonneg; unfold K; lia. }
  pose proof (pow2_le_digits M 104 ltac:(lia) HMlo) as HdM.
  pose proof (digits_le_of_lt_pow2 M 106 ltac:(lia) ltac:(lia)) as HdM'.
  destruct (binary_round_aux_close (xorb false false) M (e1 + -23)
              loc_Exact ltac:(lia) ltac:(lia) ltac:(lia))
    as (m2 & e2 & Ex2 & Hm2 & He2 & H2).
  rewrite Ex2. cbn [xorb].
  exists m2, e2, (s + 23).
  split; [reflexivity|]. split; [lia|]. split; [lia|].
  set (g1 := e1 - - s) in *. set (g2 := e2 - (e1 + -23)) in *.
  replace (s + 23 + e2) with (g1 + g2) by (unfold g1, g2; lia).
  rewrite !Z.pow_add_r by (unfold g1, g2; lia). fold S.
  set (G1 := 2 ^ g1) in *. set (G2 := 2 ^ g2) in *.
  assert (HG1 : 0 < G1) by (apply Z.pow_pos_nonneg; unfold g1; lia).
  assert (HG2 : 0 < G2) by (apply Z.pow_pos_nonneg; unfold g2; lia).
  destruct H1 as [H1l H1u]. destruct H2 as [H2l H2u].
  set (c := 2 ^ 52) in *.
  assert (Hc : c = 4503599627370496) by reflexivity.
  change (2 ^ 104) with (c * c). change (2 ^ 156) with (c * c * c).
  change (2 ^ 23) with 8388608.
  set (m1z := Zpos m1) in *. set (m2z := Zpos m2) in *.
  split.
  - assert (U1 : m2z * G2 * c * (G1 * c * z) <= M * (c + 1) * (G1 * c * z))
      by (apply Z.mul_le_mono_nonneg_r; [nonneg|assumption]).
    assert (U2 : m1z * G1 * c * (K * (c + 1) * z)
                 <= q * (c + 1) * (K * (c + 1) * z))
      by (apply Z.mul_le_mono_nonneg_r; [unfold K; nonneg|assumption]).
    assert (U3 : z * q * (K * (c + 1) * (c + 1))
                 <= S * (K * (c + 1) * (c + 1)))
      by (apply Z.mul_le_mono_nonneg_r; [unfold K; nonneg|assumption]).
    unfold M in U1.
    apply Z.le_trans with (M * (c + 1) * (G1 * c * z));
      [apply Z.le_trans with (m2z * G2 * c * (G1 * c * z));
       [apply Z.eq_le_incl; ring|exact U1]|].
    unfold M.
    apply Z.le_trans with (m1z * G1 * c * (K * (c + 1) * z));
      [apply Z.eq_le_incl; ring|].
    apply Z.le_trans with (q * (c + 1) * (K * (c + 1) * z));
      [exact U2|].
    apply Z.le_trans with (z * q * (K * (c + 1) * (c + 1)));
      [apply Z.eq_le_incl; ring|].
    apply Z.le_trans with (S * (K * (c + 1) * (c + 1))); [exact U3|].
    apply Z.eq_le_incl. unfold K. rewrite Hc. ring.
  - assert (Hzc : z * c <= z * q)
      by (apply Z.mul_le_mono_nonneg_l; lia).
    assert (Hzq : S * (c - 1) <= z * q * c).
    { assert (S - z + 1 <= z * q) by lia.
      assert ((S - z + 1) * c <= z * q * c)
        by (apply Z.mul_le_mono_nonneg_r; lia).
      lia. }
    assert (L1 : M * (c - 1) * (G1 * c * c * z)
                 <= m2z * G2 * c * (G1 * c * c * z))
      by (apply Z.mul_le_mono_nonneg_r; [nonneg|assumption]).
    assert (L2 : q * (c - 1) * (K * (c - 1) * c * z)
                 <= m1z * G1 * c * (K * (c - 1) * c * z))
      by (apply Z.mul_le_mono_nonneg_r; [unfold K; nonneg|assumption]).
    assert (L3 : S * (c - 1) * (K * (c - 1) * (c - 1))
                 <= z * q * c * (K * (c - 1) * (c - 1)))
      by (apply Z.mul_le_mono_nonneg_r; [unfold K; nonneg|assumption]).
    apply Z.le_trans with (S * (c - 1) * (K * (c - 1) * (c - 1)));
      [apply Z.eq_le_incl; unfold K; rewrite Hc; ring|].
    apply Z.le_trans with (z * q * c * (K * (c - 1) * (c - 1)));
      [exact L3|].
    apply Z.le_trans with (q * (c - 1) * (K * (c - 1) * c * z));
      [apply Z.eq_le_incl; ring|].
    apply Z.le_trans with (m1z * G1 * c * (K * (c - 1) * c * z));
      [exact L2|].
    apply Z.le_trans with (M * (c - 1) * (G1 * c * c * z));
      [apply Z.eq_le_incl; unfold M; ring|].
    apply Z.le_trans with (m2z * G2 * c * (G1 * c * c * z));
      [exact L1|].
    apply Z.eq_le_incl; ring.
Qed.

End IntegerFrequency.

Section IntegerFrequencyResult.

(** Truncating a double whose value is known between two consecutive
    integers. *)
Lemma floor_of_scaled (m2 : positive) (e2 T Q : Z) :
  0 <= T -> 0 <= T + e2 ->
  Q * 2 ^ T <= Zpos m2 * 2 ^ (T + e2) < (Q + 1) * 2 ^ T ->
  Py.int_of_float (S754_finite false m2 e2) = Ok Q.
Proof.
  intros HT HTe [Hlo Hhi]. cbn [Py.int_of_float cond_Zopp]. f_equal.
  destruct (Z.leb_spec 0 e2) as [He|He].
  - replace (T + e2) with (e2 + T) in Hlo, Hhi by lia.
    rewrite Z.pow_add_r in Hlo, Hhi by lia.
    set (W := 2 ^ T) in *.
    assert (HW : 0 < W) by (apply Z.pow_pos_nonneg; lia).
    rewrite Z.mul_assoc in Hlo, Hhi.
    apply Z.mul_le_mono_pos_r in Hlo; [|assumption].
    apply Z.mul_lt_mono_pos_r in Hhi; [|assumption]. lia.
  - assert (EW : 2 ^ T = 2 ^ (- e2) * 2 ^ (T + e2))
      by (rewrite <- Z.pow_add_r by lia; f_equal; lia).
    rewrite EW in Hlo, Hhi.
    set (D := 2 ^ (- e2)) in *. set (Y := 2 ^ (T + e2)) in *.
    assert (HD : 0 < D) by (apply Z.pow_pos_nonneg; lia).
    assert (HY : 0 < Y) by (apply Z.pow_pos_nonneg; lia).
    rewrite Z.mul_assoc in Hlo, Hhi.
    apply Z.mul_le_mono_pos_r in Hlo; [|assumption].
    apply Z.mul_lt_mono_pos_r in Hhi; [|assumption].
    apply Z.le_antisymm.
    + assert (Z.pos m2 / D < Q + 1); [|lia].
      apply Z.div_lt_upper_bound; lia.
    + apply Z.div_le_lower_bound; lia.
Qed.

Lemma divisor_of_second_ok (z : Z) :
  1 <= z -> _SECOND_AS_NS mod z = 0 -> integer_frequency_ok z = true.
Proof.
  intros Hz Hdiv.
  assert (Hex : _SECOND_AS_NS = z * (_SECOND_AS_NS / z))
    by (apply Z.div_exact; lia).
  set (d := _SECOND_AS_NS / z) in *.
  destruct (Z.le_gt_cases z 31622) as [Hsmall|Hlarge].
  - pose proof (all_from_spec _ _ _ divisor_pairs_checked z
                  ltac:(rewrite Z2Nat.id; lia)) as H.
    unfold divisor_pair_ok in H. rewrite Hdiv in H.
    change (0 =? 0) with true in H. cbv iota in H.
    apply andb_true_iff in H. apply H.
  - assert (Hd : 1 <= d <= 31622).
    { unfold _SECOND_AS_NS in Hex. split.
      - destruct (Z.le_gt_cases 1 d) as [|Hlt]; [assumption|].
        assert (z * d <= z * 0) by (apply Z.mul_le_mono_nonneg_l; lia).
        lia.
      - destruct (Z.le_gt_cases d 31622) as [|Hgt]; [assumption|].
        assert (31623 * 31623 <= z * d)
          by (apply Z.mul_le_mono_nonneg; lia).
        lia. }
    pose proof (all_from_spec _ _ _ divisor_pairs_checked d
                  ltac:(rewrite Z2Nat.id; lia)) as H.
    unfold divisor_pair_ok in H.
    assert (Hmod : _SECOND_AS_NS mod d = 0)
      by (rewrite Hex; apply Z.mod_mul; lia).
    assert (Hdivd : _SECOND_AS_NS / d = z)
      by (rewrite Hex; apply Z.div_mul; lia).
    rewrite Hmod, Hdivd in H.
    change (0 =? 0) with true in H. cbv iota in H.
    apply andb_true_iff in H. apply H.
Qed.

End IntegerFrequencyResult.

(** X16: for every integer frequency from 1 up to [2 ^ 1022],
    [from_frequency] stores exactly [1_000_000_000 // frequency]: the
    two roundings of [1 / frequency] and of its product by [1e9] never
    reach the next integer, so frequencies above a billion per second
    give the period 0. *)
Theorem from_frequency_of_int (z : Z) :
  1 <= z <= 2 ^ 1022 ->
  Rate.from_frequency (Py.Int z)
  = Ok {| Rate.period_ns := _SECOND_AS_NS / z |}.
Proof.
  intros Hz.
  destruct (Z.eq_dec (_SECOND_AS_NS mod z) 0) as [Hdiv|Hndiv].
  - pose proof (divisor_of_second_ok z ltac:(lia) Hdiv) as H.
    unfold integer_frequency_ok in H.
    destruct (Rate.from_frequency (Py.Int z)) as [[p]|e]; [|discriminate].
    cbn [Rate.period_ns] in H. apply Z.eqb_eq in H. now subst p.
  - destruct (inverse_scaled z Hz)
      as (m2 & e2 & T & E & HT & HTe & Hu & Hl).
    unfold Rate.from_frequency.
    destruct (Py.int_over 1 (Py.Int z)) as [x|e]; [|discriminate].
    rewrite rbind_Ok in E. rewrite rbind_Ok, E, rbind_Ok.
    set (Q := _SECOND_AS_NS / z).
    assert (HQ1 : z * Q <= _SECOND_AS_NS) by (apply Z.mul_div_le; lia).
    assert (HQ2 : _SECOND_AS_NS < z * (Q + 1)).
    { pose proof (Z.mul_succ_div_gt _SECOND_AS_NS z ltac:(lia)) as H.
      fold Q in H. lia. }
    assert (HQ3 : z * Q <> _SECOND_AS_NS).
    { pose proof (Z.div_mod _SECOND_AS_NS z ltac:(lia)) as H.
      fold Q in H. lia. }
    assert (HQ0 : 0 <= Q) by (apply Z.div_pos; unfold _SECOND_AS_NS; lia).
    assert (HQle : Q <= _SECOND_AS_NS).
    { assert (1 * Q <= z * Q) by (apply Z.mul_le_mono_nonneg_r; lia).
      lia. }
    unfold _SECOND_AS_NS in HQ1, HQ2, HQ3, HQle.
    set (X := Zpos m2 * 2 ^ (T + e2)) in *.
    set (W := 2 ^ T) in *.
    assert (HW : 0 < W) by (apply Z.pow_pos_nonneg; lia).
    assert (Hfloor : Q * W <= X < (Q + 1) * W).
    { change (2 ^ 104) with 20282409603651670423947251286016 in Hu.
      change ((2 ^ 52 + 1) ^ 2)
        with 20282409603651679431146506027009 in Hu.
      change (2 ^ 156)
        with 91343852333181432387730302044767688728495783936 in Hl.
      change ((2 ^ 52 - 1) ^ 3)
        with 91343852333181371540501491089769927685624037375 in Hl.
      split.
      - destruct (Z.le_gt_cases (Q * W) X) as [|Hlt]; [assumption|].
        exfalso.
        assert (A1 : (X + 1) * z <= Q * W * z)
          by (apply Z.mul_le_mono_nonneg_r; lia).
        assert (A2 : z * Q * W <= 999999999 * W)
          by (apply Z.mul_le_mono_nonneg_r; lia).
        lia.
      - destruct (Z.le_gt_cases ((Q + 1) * W) X) as [Hge|]; [|lia].
        exfalso.
        assert (B1 : (Q + 1) * W * z <= X * z)
          by (apply Z.mul_le_mono_nonneg_r; lia).
        assert (B2 : 1000000001 * W <= z * (Q + 1) * W)
          by (apply Z.mul_le_mono_nonneg_r; lia).
        lia. }
    rewrite (floor_of_scaled m2 e2 T Q HT HTe Hfloor), rbind_Ok.
    rewrite Rate_init_small by lia. now rewrite Z.div_1_r.
Qed.

Lemma from_frequency_of_int_witness :
  Rate.from_frequency (Py.Int 3)
  = Ok {| Rate.period_ns := _SECOND_AS_NS / 3 |}.
Proof.
  apply (from_frequency_of_int 3). split; [lia|].
  apply Z.lt_le_incl. reflexivity.
Defined.

(** ** Conservation *)

Section Conservation.

Import Bucket Run.

Variables (p t0 : Z).
Hypothesis period_positive : 0 < p.

(** Over the operations, the tokens that the refills have added cost a
    whole period each of the advance of the timestamp, which stays
    behind the clock. *)
Lemma run_conserves (ops : list op) :
  forall (b : Bucket.t) (t A : Z),
    Rate.period_ns (_refill_rate b) = p ->
    (A + _current b - _volume b) * p <= _last_refill_ns b - t0 ->
    t0 <= _last_refill_ns b <= t ->
    clock_ok t (t0 + 2 ^ 53) ops ->
    (A + taken ops + _current (run ops b) - _volume b) * p
    <= _last_refill_ns (run ops b) - t0.
Proof.
  induction ops as [|o ops IH]; intros b t A Hp Hinv Hl Hok.
  - cbn [taken run fold_left]. now rewrite Z.add_0_r.
  - change (run (o :: ops) b) with (run ops (step o b)).
    destruct b as [v [q] c l]. fields in Hp. subst q.
    fields in Hinv. fields in Hl. fields.
    destruct o as [amount|now|]; cbn [taken clock_ok] in *.
    + unfold step. rewrite remove_unfold. fields.
      rewrite Z.add_assoc.
      destruct (Z.ltb_spec amount 0) as [Ha|Ha]; cbn [snd].
      * apply (IH {| _volume := v;
                     _refill_rate := {| Rate.period_ns := p |};
                     _current := c; _last_refill_ns := l |}
                 t (A + 0)); fields; auto. now rewrite Z.add_0_r.
      * unfold set_current. fields.
        apply (IH {| _volume := v;
                     _refill_rate := {| Rate.period_ns := p |};
                     _current := c - amount; _last_refill_ns := l |}
                 t (A + amount)); fields; auto.
        replace (A + amount + (c - amount) - v) with (A + c - v) by lia.
        exact Hinv.
    + destruct Hok as [Hnow Hrest]. unfold step.
      destruct (Z.lt_ge_cases c v) as [Hc|Hc].
      * rewrite refill_below_volume by (fields; lia). fields.
        set (n := (now - l) / p).
        assert (Hn : 0 <= n) by (apply Z.div_pos; lia).
        assert (Hnp : p * n <= now - l) by (apply Z.mul_div_le; lia).
        apply (IH {| _volume := v;
                     _refill_rate := {| Rate.period_ns := p |};
                     _current := Z.min (c + n) v;
                     _last_refill_ns := l + n * p |} now A);
          fields; auto; [|lia].
        assert ((A + Z.min (c + n) v - v) * p <= (A + c - v + n) * p)
          by (apply Z.mul_le_mono_nonneg_r; lia).
        replace ((A + c - v + n) * p) with ((A + c - v) * p + n * p)
          in * by ring.
        lia.
      * rewrite refill_at_volume by (fields; lia).
        unfold set_last_refill_ns. fields.
        apply (IH {| _volume := v;
                     _refill_rate := {| Rate.period_ns := p |};
                     _current := c; _last_refill_ns := now |} now A);
          fields; auto; lia.
    + unfold step.
      apply (IH {| _volume := v;
                   _refill_rate := {| Rate.period_ns := p |};
                   _current := c; _last_refill_ns := l |} t A);
        fields; auto.
Qed.

End Conservation.

(** X17: no token is invented.  For a bucket whose period is positive,
    under a monotonic clock whose readings stay within [2 ^ 53] ns of
    the reading taken at construction, the tokens taken out so far plus
    those left, less the volume the bucket started with, cost a whole
    period each of the advance of the timestamp. *)
Theorem tokens_never_invented (volume : Z) (rate : Rate.t) (t0 : Z)
    (ops : list Run.op) :
  0 < Rate.period_ns rate ->
  Run.clock_ok t0 (t0 + 2 ^ 53) ops ->
  let b := Run.run ops (Bucket.__init__ volume rate t0) in
  (taken ops + Bucket._current b - volume) * Rate.period_ns rate
  <= Bucket._last_refill_ns b - t0.
Proof.
  intros Hp Hok.
  apply (run_conserves (Rate.period_ns rate) t0 Hp ops
           (Bucket.__init__ volume rate t0) t0 0);
    unfold Bucket.__init__; fields; auto; lia.
Qed.

Lemma tokens_never_invented_witness :
  let b := Run.run [Run.Remove 3; Run.Refill 2600; Run.Remove (-1);
                    Run.Remove 2; Run.Refill 7100]
             (Bucket.__init__ 3 {| Rate.period_ns := 1000 |} 100) in
  (taken [Run.Remove 3; Run.Refill 2600; Run.Remove (-1);
          Run.Remove 2; Run.Refill 7100]
   + Bucket._current b - 3)
  * Rate.period_ns {| Rate.period_ns := 1000 |}
  <= Bucket._last_refill_ns b - 100.
Proof.
  apply (tokens_never_invented 3 {| Rate.period_ns := 1000 |} 100
           [Run.Remove 3; Run.Refill 2600; Run.Remove (-1);
            Run.Remove 2; Run.Refill 7100]).
  - simpl. lia.
  - simpl. lia.
Defined.

(** X18: what [from_frequency] raises tells the frequency apart: it
    raises [ValueError] exactly for a NaN and [ZeroDivisionError] exactly
    for a zero; any other failure is an [OverflowError]. *)
Theorem from_frequency_errors (f : Py.number) :
  (Rate.from_frequency f = Raise ValueError <-> f = Py.Float S754_nan) /\
  (Rate.from_frequency f = Raise ZeroDivisionError <->
   Py.is_null f = true).
Proof.
  assert (Hsigned : forall s, signed s f ->
            Rate.from_frequency f <> Raise ValueError /\
            Rate.from_frequency f <> Raise ZeroDivisionError).
  { intros s Hs.
    destruct (from_frequency_sign s f Hs) as [E|(r & E & _)];
      rewrite E; split; discriminate. }
  destruct f as [z|x].
  - destruct (Z.eq_dec z 0) as [->|Hz].
    + split; split; intros H; try discriminate H; reflexivity.
    + destruct (Hsigned (z <? 0)) as [H1 H2]; [split; auto|].
      split; split; intros H; try discriminate H; try contradiction.
      all: cbn [Py.is_null] in H; apply Z.eqb_eq in H; contradiction.
  - destruct x as [s|s| |s m e].
    + split; split; intros H; try discriminate H; reflexivity.
    + destruct (Hsigned s) as [H1 H2]; [split; reflexivity|].
      split; split; intros H; try discriminate H; try contradiction.
      destruct s; discriminate H.
    + split; split; intros H; try discriminate H; reflexivity.
    + destruct (Hsigned s) as [H1 H2]; [split; reflexivity|].
      split; split; intros H; try discriminate H; try contradiction.
      destruct s; discriminate H.
Qed.
